(** * Azure AD -> DSS user synchronisation macro

    A shallow embedding of [python-runnables/graph-macro/runnable.py]
    (class [MyRunnable]) and the properties of its reconciliation run.

    Conventions of the embedding.
    - Python [str] is [string]; a list of labels is [list string].
    - [set(...)] is a [gset string]; [list(set(...))] is [elements].
    - The DSS user base is a finite map from login to account definition.
    - Methods that log, call DSS or raise live in the monad [M]: a state
      transformer over [State] whose outcome is a value or a raised
      exception, identified with its [str(e)].
    - pandas frames are lists of rows; the one frame whose missing columns
      matter is the member frame of phase 2, which has columns exactly when
      it has rows. *)

From Stdlib Require Import Ascii.
From stdpp Require Import gmap strings list fin_maps sorting.

(* ================================================================== *)
(** * Basic methods for translating *)

(** [str.replace(old, new)] for one-character [old] and [new]. *)
Fixpoint replace_char (old new : ascii) (s : string) : string :=
  match s with
  | EmptyString => EmptyString
  | String c rest =>
      String (if Ascii.eqb c old then new else c) (replace_char old new rest)
  end.

(** [get_user_id(email)]: [email.replace("@", "_")]. *)
Definition get_user_id (email : string) : string :=
  replace_char "@"%char "_"%char email.

(** [list_diff(list1, list2)]: [list(set(list1) - set(list2))]. *)
Definition list_diff (list1 list2 : list string) : list string :=
  elements ((list_to_set list1 : gset string) ∖ list_to_set list2).

(** License types, ordered from most to least potent. *)
Definition possible_licenses : list string :=
  ["DATA_SCIENTIST"; "DATA_ANALYST"; "READER"; "EXPLORER"; "NONE"].

(** The [for license_type in ...: if license_type in license_list: return]
    loop of [get_license], over the remaining candidates. *)
Fixpoint first_license_in (candidates license_list : list string) : string :=
  match candidates with
  | [] => "NONE"
  | license_type :: rest =>
      if bool_decide (license_type ∈ license_list) then license_type
      else first_license_in rest license_list
  end.

Definition get_license (license_list : list string) : string :=
  first_license_in possible_licenses license_list.

(** Helpers used to state facts about e-mail addresses. *)
Fixpoint has_char (c : ascii) (s : string) : bool :=
  match s with
  | EmptyString => false
  | String c' rest => Ascii.eqb c' c || has_char c rest
  end.

(** The text after the first ["@"], when there is one. *)
Fixpoint domain_part (s : string) : option string :=
  match s with
  | EmptyString => None
  | String c rest =>
      if Ascii.eqb c "@"%char then Some rest else domain_part rest
  end.

(** An address [local@domain] with a single ["@"] and no ["_"] in the
    domain (the shape of a user principal name). *)
Definition plain_address (s : string) : bool :=
  match domain_part s with
  | Some d => negb (has_char "@"%char d) && negb (has_char "_"%char d)
  | None => false
  end.

(* ================================================================== *)
(** * Data model *)

(** A row of the groups configuration dataset ([self.groups_df]). *)
Record GroupsRow := {
  dss_name : string;
  aad_name : string;
  license : string }.

Record GroupsDf := {
  columns : list string;
  rows : list GroupsRow }.

(** A row of the frame returned by [query_members]. *)
Record DirectoryMember := {
  m_displayName : string;
  m_email : string;
  m_groups : string;
  m_login : string }.

(** A row of [aad_users]: one directory user with the unique DSS groups and
    the unique licenses of those groups. *)
Record AadUser := {
  aad_login : string;
  aad_displayName : string;
  aad_email : string;
  groups_aad : list string;
  license_aad : list string }.

(** A DSS user definition (the dict of [get_definition] / [list_users]),
    without its login, which is the key of the user base. [other] stands for
    the fields the macro never reads. *)
Record UserDef := {
  displayName : string;
  email : string;
  groups : list string;
  sourceType : string;
  userProfile : string;
  other : gmap string string }.

(** A row of [dss_users]. *)
Record DssUser := {
  login : string;
  definition : UserDef }.

(** A row of [user_comparison], the outer merge with [indicator=True]; the
    constructor is the [_merge] column, and the columns that are NaN on a
    one-sided row are absent from it. *)
Inductive ComparisonRow :=
| left_only (a : AadUser)
| right_only (d : DssUser)
| both (a : AadUser) (d : DssUser).

(** A record of [self.log_df]. *)
Record LogEntry := {
  date : string;
  user : string;
  type : string;
  message : string }.

(** Mutating requests received by DSS. *)
Inductive Request :=
| POST_user (login display_name : string) (groups : list string)
            (password source_type profile : string)
| PUT_user (login : string) (def : UserDef)
| DELETE_user (login : string).

(** What the Graph API answers to the member listing of a group: pages of
    (displayName, userPrincipalName) records, each but the last with an
    ["@odata.nextLink"], or a failure of a request or of its decoding. *)
Inductive MembersResponse :=
| members_failure (msg : string)
| members_last (value : list (string * string))
| members_page (value : list (string * string)) (next_link : MembersResponse).

Inductive outcome (A : Type) : Type :=
| Returned (a : A)
| Raised (msg : string).
Arguments Returned {A} a.
Arguments Raised {A} msg.

(** Microsoft Graph as reached through [self.session]: the failure, if any,
    of creating the authentication context and of acquiring a token with a
    given method, the ids found by the group search, and the member listing
    of a group id. *)
Record Session := {
  context_error : option string;
  token_error : string → option string;
  group_search : string → outcome (list string);
  group_members : string → MembersResponse }.

(** The fields of a [MyRunnable] instance that [run] reads, with the
    external services it holds handles to: the clock of [add_log] (the
    timestamp of the n-th record) and the failure, if any, of writing a
    dataset. *)
Record MyRunnable := {
  flag_simulate : bool;
  auth_method : string;
  log_dataset : option string;
  groups_df : GroupsDf;
  run_user : string;
  session : Session;
  clock : nat → string;
  dataset_write_error : string → option string }.

(** The mutable state of a run: the log frame, and DSS behind
    [self.client] (user base, group names, requests received, datasets
    written). *)
Record State := {
  log_df : list LogEntry;
  users : gmap string UserDef;
  dss_groups : list string;
  requests : list Request;
  written : list (string * list LogEntry) }.

Record ResultTable := {
  table_columns : list (string * string * string);
  records : list (list string) }.

Definition set_log (f : list LogEntry → list LogEntry) (st : State) : State :=
  {| log_df := f (log_df st); users := users st; dss_groups := dss_groups st;
     requests := requests st; written := written st |}.

Definition set_users (f : gmap string UserDef → gmap string UserDef)
    (st : State) : State :=
  {| log_df := log_df st; users := f (users st); dss_groups := dss_groups st;
     requests := requests st; written := written st |}.

Definition sent (r : Request) (st : State) : State :=
  {| log_df := log_df st; users := users st; dss_groups := dss_groups st;
     requests := requests st ++ [r]; written := written st |}.

Definition set_written
    (f : list (string * list LogEntry) → list (string * list LogEntry))
    (st : State) : State :=
  {| log_df := log_df st; users := users st; dss_groups := dss_groups st;
     requests := requests st; written := f (written st) |}.

(* ================================================================== *)
(** * The monad of methods *)

Definition M (A : Type) : Type := State → outcome A * State.

Definition ret {A} (a : A) : M A := λ st, (Returned a, st).

Definition raise {A} (msg : string) : M A := λ st, (Raised msg, st).

Definition bind {A B} (m : M A) (k : A → M B) : M B := λ st,
  match m st with
  | (Returned a, st') => k a st'
  | (Raised msg, st') => (Raised msg, st')
  end.

(** With these instances [x ← m; k] and [m;; k] sequence two methods. *)
#[export] Instance M_ret : MRet M := @ret.
#[export] Instance M_bind : MBind M := λ A B k m, bind m k.

(** [try: body / except Exception as e: handler(str(e))]. *)
Definition try_except {A} (body : M A) (handler : string → M A) : M A :=
  λ st,
  match body st with
  | (Returned a, st') => (Returned a, st')
  | (Raised msg, st') => handler msg st'
  end.

(** [for x in l: body(x)]. *)
Fixpoint for_each {A} (body : A → M unit) (l : list A) : M unit :=
  match l with
  | [] => ret tt
  | x :: l' => body x;; for_each body l'
  end.

(* ================================================================== *)
(** * Text *)

Definition dq : string := String (ascii_of_nat 34) EmptyString.

Definition quoted (s : string) : string := dq +:+ s +:+ dq.

Fixpoint join (sep : string) (l : list string) : string :=
  match l with
  | [] => EmptyString
  | [x] => x
  | x :: l' => x +:+ sep +:+ join sep l'
  end.

(** [repr] of a string without quotes, backslashes or control characters. *)
Definition repr (s : string) : string := "'" +:+ s +:+ "'".

(** [str] of a Python list of strings. *)
Definition str_list (l : list string) : string :=
  "[" +:+ join ", " (repr <$> l) +:+ "]".

(** [str] of a one-dimensional numpy array of strings (on one line). *)
Definition str_array (l : list string) : string :=
  "[" +:+ join " " (repr <$> l) +:+ "]".

Definition upper (c : ascii) : ascii :=
  let n := nat_of_ascii c in
  if (97 <=? n)%nat && (n <=? 122)%nat then ascii_of_nat (n - 32) else c.

Definition lower (c : ascii) : ascii :=
  let n := nat_of_ascii c in
  if (65 <=? n)%nat && (n <=? 90)%nat then ascii_of_nat (n + 32) else c.

Fixpoint map_chars (f : ascii → ascii) (s : string) : string :=
  match s with
  | EmptyString => EmptyString
  | String c rest => String (f c) (map_chars f rest)
  end.

(** [str.capitalize] on ASCII text. *)
Definition capitalize (s : string) : string :=
  match s with
  | EmptyString => EmptyString
  | String c rest => String (upper c) (map_chars lower rest)
  end.

(** [Series.unique()]: the distinct values in order of first appearance. *)
Fixpoint unique (l : list string) : list string :=
  match l with
  | [] => []
  | x :: l' => x :: filter (λ y, y ≠ x) (unique l')
  end.

(** Truth value of an optional string ([None] and the empty string are
    false). *)
Definition truthy (o : option string) : bool :=
  match o with
  | Some s => negb (String.eqb s EmptyString)
  | None => false
  end.

(* ================================================================== *)
(** * Methods related to logging *)

(** [add_log(message, log_type)]: append one record to [self.log_df]. *)
Definition add_log (self : MyRunnable) (message log_type : string) : M unit :=
  λ st,
  let new_log := {| date := clock self (length (log_df st));
                    user := run_user self;
                    type := log_type;
                    message := message |} in
  (Returned tt, set_log (λ log, log ++ [new_log]) st).

(** [save_log(dss_log_dataset_name)]: [write_with_schema] of the log. *)
Definition save_log (self : MyRunnable) (dss_log_dataset_name : string)
    : M unit :=
  λ st,
  match dataset_write_error self dss_log_dataset_name with
  | Some msg => (Raised msg, st)
  | None =>
      (Returned tt,
       set_written (λ w, w ++ [(dss_log_dataset_name, log_df st)]) st)
  end.

(** [create_resulttable()]: a column per column of the log frame and a
    record per log row. *)
Definition create_resulttable : M ResultTable := λ st,
  (Returned
     {| table_columns :=
          (λ column_name, (column_name, capitalize column_name, "STRING"))
            <$> ["date"; "user"; "type"; "message"];
        records :=
          (λ log_row, [date log_row; user log_row; type log_row;
                       message log_row]) <$> log_df st |},
   st).

(* ================================================================== *)
(** * Methods related to input handling and validation *)

Definition mandatory_columns : list string :=
  ["dss_name"; "aad_name"; "license"].

Definition validate_groups_df (self : MyRunnable) : M unit :=
  if bool_decide (columns (groups_df self) = mandatory_columns) then
    let license_values := unique (license <$> rows (groups_df self)) in
    let impossible_licenses := list_diff license_values possible_licenses in
    if bool_decide (impossible_licenses = []) then mret tt
    else raise
      ("Invalid license types were found in the groups configuration: "
       +:+ str_list impossible_licenses
       +:+ ". Valid license values are: " +:+ str_list possible_licenses)
  else raise
    ("The groups dataset is not correctly configured."
     +:+ " It should contain these columns: " +:+ str_list mandatory_columns).

(* ================================================================== *)
(** * Methods that interact with the Graph API *)

(** [set_session_headers()]: create the authentication context, then
    acquire a token with the configured method. *)
Definition set_session_headers (self : MyRunnable) : M unit :=
  match context_error (session self) with
  | Some msg => raise msg
  | None =>
      if bool_decide
           (auth_method self ∈
              ["auth_app_token"; "auth_app_cert"; "auth_user_pwd"]) then
        match token_error (session self) (auth_method self) with
        | Some msg => raise msg
        | None => mret tt
        end
      else raise "Invalid authentication method"
  end.

(** [query_group(group_name_aad)]: the Graph id of the group, or [None]
    after a WARNING. *)
Definition query_group (self : MyRunnable) (group_name_aad : string)
    : M (option string) :=
  match group_search (session self) group_name_aad with
  | Returned (id :: _) => mret (Some id)
  | Returned [] =>
      add_log self
        ("No return value from Graph for group " +:+ group_name_aad) "WARNING";;
      mret None
  | Raised e =>
      add_log self
        ("Error calling Graph API for group " +:+ dq +:+ group_name_aad +:+ ": "
         +:+ e) "WARNING";;
      mret None
  end.

(** The [while query_url] loop of [query_members]: the records of all pages,
    unless a request fails. *)
Fixpoint fetch_pages (r : MembersResponse) : outcome (list (string * string)) :=
  match r with
  | members_failure msg => Raised msg
  | members_last value => Returned value
  | members_page value next_link =>
      match fetch_pages next_link with
      | Returned more => Returned (value ++ more)
      | Raised msg => Raised msg
      end
  end.

(** The body of the [try] of [query_members]. Renaming the columns of a
    frame built from no record at all raises (it has no column). *)
Definition members_frame (self : MyRunnable) (group_id group_name_dss : string)
    : outcome (list DirectoryMember) :=
  match fetch_pages (group_members (session self) group_id) with
  | Raised msg => Raised msg
  | Returned [] =>
      Raised "Length mismatch: Expected axis has 0 elements, new values have 2 elements"
  | Returned value =>
      Returned
        ((λ r, {| m_displayName := r.1; m_email := r.2;
                  m_groups := group_name_dss;
                  m_login := get_user_id r.2 |}) <$> value)
  end.

(** [query_members(group_id, group_name_dss)]: the members frame, or [None]
    after a WARNING. *)
Definition query_members (self : MyRunnable) (group_id group_name_dss : string)
    : M (option (list DirectoryMember)) :=
  match members_frame self group_id group_name_dss with
  | Returned group_members => mret (Some group_members)
  | Raised e =>
      add_log self
        ("Group " +:+ quoted group_name_dss
         +:+ " members cannot be retrieved from AAD: " +:+ e) "WARNING";;
      mret None
  end.

(* ================================================================== *)
(** * The DSS client *)

(** [self.client]: the calls of the DSS public API that the macro makes.
    The user handle of [get_user(login)] is its login. *)
Module client.

(** [self.client.list_users()] as the frame [dss_users]. *)
Definition list_users : M (list DssUser) := λ st,
  (Returned ((λ kv, {| login := kv.1; definition := kv.2 |})
               <$> map_to_list (users st)), st).

(** [[group["name"] for group in self.client.list_groups()]]. *)
Definition list_groups : M (list string) := λ st,
  (Returned (dss_groups st), st).

(** [self.client.create_user(...)]: DSS refuses a login that is taken. *)
Definition create_user (login display_name : string) (groups : list string)
    (password source_type profile : string) : M unit :=
  λ st,
  let st' := sent (POST_user login display_name groups password source_type
                             profile) st in
  match users st !! login with
  | Some _ => (Raised ("User already exists: " +:+ login), st')
  | None =>
      (Returned tt,
       set_users (insert login
                    {| displayName := display_name; email := EmptyString;
                       groups := groups; sourceType := source_type;
                       userProfile := profile; other := ∅ |}) st')
  end.

(** [user.get_definition()]: DSS knows the user or refuses. *)
Definition get_definition (login : string) : M UserDef := λ st,
  match users st !! login with
  | Some user_def => (Returned user_def, st)
  | None => (Raised ("User not found: " +:+ login), st)
  end.

(** [user.set_definition(user_def)]. *)
Definition set_definition (login : string) (user_def : UserDef) : M unit :=
  λ st,
  let st' := sent (PUT_user login user_def) st in
  match users st !! login with
  | Some _ => (Returned tt, set_users (insert login user_def) st')
  | None => (Raised ("User not found: " +:+ login), st')
  end.

(** [user.delete()]. *)
Definition delete (login : string) : M unit := λ st,
  let st' := sent (DELETE_user login) st in
  match users st !! login with
  | Some _ => (Returned tt, set_users (base.delete login) st')
  | None => (Raised ("User not found: " +:+ login), st')
  end.

End client.

Definition set_email (v : string) (d : UserDef) : UserDef :=
  {| displayName := displayName d; email := v; groups := groups d;
     sourceType := sourceType d; userProfile := userProfile d;
     other := other d |}.

Definition set_groups (v : list string) (d : UserDef) : UserDef :=
  {| displayName := displayName d; email := email d; groups := v;
     sourceType := sourceType d; userProfile := userProfile d;
     other := other d |}.

Definition set_userProfile (v : string) (d : UserDef) : UserDef :=
  {| displayName := displayName d; email := email d; groups := groups d;
     sourceType := sourceType d; userProfile := v; other := other d |}.

(* ================================================================== *)
(** * Methods that handle user creation, drop and alteration within DSS *)

Definition user_create (self : MyRunnable)
    (user_id display_name email : string) (groups : list string)
    (user_license : string) : M unit :=
  if bool_decide (user_license = "NONE") then
    add_log self
      ("User " +:+ quoted user_id
       +:+ " will not be created, since he has no license.") "INFO"
  else if flag_simulate self then
    add_log self
      ("User " +:+ quoted user_id +:+ " will be created and assigned groups "
       +:+ quoted (str_array groups)) "INFO"
  else
    client.create_user user_id display_name groups EmptyString "LOCAL_NO_AUTH"
                    user_license;;
    user_def ← client.get_definition user_id;
    client.set_definition user_id (set_email email user_def);;
    add_log self
      ("User " +:+ quoted user_id +:+ " has been created and assigned groups "
       +:+ quoted (str_array groups)) "INFO".

Definition user_update (self : MyRunnable) (user_id : string)
    (groups : list string) (user_license : string) : M unit :=
  if flag_simulate self then
    add_log self
      ("User " +:+ quoted user_id +:+ " groups will be modified to "
       +:+ quoted (str_list groups) +:+ ", user license " +:+ quoted user_license)
      "INFO"
  else
    user_def ← client.get_definition user_id;
    client.set_definition user_id
      (set_userProfile user_license (set_groups groups user_def));;
    add_log self
      ("User " +:+ quoted user_id +:+ " groups have been modified to "
       +:+ quoted (str_list groups) +:+ ", user license " +:+ quoted user_license)
      "INFO".

Definition user_delete (self : MyRunnable) (user_id reason : string) : M unit :=
  if flag_simulate self then
    add_log self
      ("User " +:+ quoted user_id +:+ " will be deleted. Reason: " +:+ reason)
      "INFO"
  else
    client.delete user_id;;
    add_log self
      ("User " +:+ quoted user_id +:+ " has been deleted. Reason: " +:+ reason)
      "INFO".

(* ================================================================== *)
(** * The main run method *)

(** ** Phase 2: query Graph *)

(** The loop over [self.groups_df.itertuples()]. [group_members_df] starts
    as the empty frame; appending [None] (a group whose members could not be
    listed) leaves it as it is. *)
Fixpoint query_graph (self : MyRunnable) (rows : list GroupsRow)
    (group_members_df : list DirectoryMember) : M (list DirectoryMember) :=
  match rows with
  | [] => mret group_members_df
  | row :: rest =>
      group_id ← query_group self (aad_name row);
      if truthy group_id then
        group_members ← query_members self (default EmptyString group_id)
                                      (dss_name row);
        query_graph self rest (group_members_df ++ default [] group_members)
      else query_graph self rest group_members_df
  end.

(** ** Phase 3: group the data frame *)

(** Order of [sort_values(by=["login", "groups"])]. *)
Definition member_leb (m1 m2 : DirectoryMember) : bool :=
  if String.eqb (m_login m1) (m_login m2)
  then String.leb (m_groups m1) (m_groups m2)
  else String.ltb (m_login m1) (m_login m2).

Definition sort_values (df : list DirectoryMember) : list DirectoryMember :=
  merge_sort (λ m1 m2, Is_true (member_leb m1 m2)) df.

(** [.merge(license_lookup, left_on="groups", right_on="dss_name")]: every
    member row with the license of every configuration row of its group. *)
Definition merge_license (df : list DirectoryMember)
    (license_lookup : list (string * string))
    : list (DirectoryMember * string) :=
  m ← df;
  (λ r, (m, r.2)) <$> filter (λ r, r.1 = m_groups m) license_lookup.

Definition member_key (x : DirectoryMember * string)
    : string * string * string :=
  (m_login x.1, m_displayName x.1, m_email x.1).

(** Lexicographic order of the group keys. *)
Definition key_leb (k1 k2 : string * string * string) : bool :=
  if negb (String.eqb k1.1.1 k2.1.1) then String.ltb k1.1.1 k2.1.1
  else if negb (String.eqb k1.1.2 k2.1.2) then String.ltb k1.1.2 k2.1.2
  else String.leb k1.2 k2.2.

(** [.groupby(by=["login", "displayName", "email"])["groups", "license"]
    .agg(["unique"]).reset_index()]: one row per key, keys sorted. *)
Definition groupby_unique (df : list (DirectoryMember * string))
    : list AadUser :=
  (λ k,
     let group := filter (λ x, member_key x = k) df in
     {| aad_login := k.1.1; aad_displayName := k.1.2; aad_email := k.2;
        groups_aad := unique ((λ x, m_groups x.1) <$> group);
        license_aad := unique (snd <$> group) |})
  <$> merge_sort (λ k1 k2, Is_true (key_leb k1 k2))
        (remove_dups (member_key <$> df)).

(** Phase 3. Sorting the frame by a column it does not have raises
    [KeyError('login')]: this is the case of the member frame to which no
    group has contributed. *)
Definition aggregate (self : MyRunnable)
    (group_members_df : list DirectoryMember) : M (list AadUser) :=
  if bool_decide (group_members_df = []) then raise "'login'"
  else
    let license_lookup :=
      (λ r, (dss_name r, license r)) <$> rows (groups_df self) in
    mret (groupby_unique
            (merge_license (sort_values group_members_df) license_lookup)).

(** ** Phase 4: update DSS users *)

Definition aad_key (a : AadUser) : string * string * string :=
  (aad_login a, aad_displayName a, aad_email a).

Definition dss_key (d : DssUser) : string * string * string :=
  (login d, displayName (definition d), email (definition d)).

(** [aad_users.merge(dss_users, how="outer", on=["login", "displayName",
    "email"], indicator=True)]: the directory rows in their order, each with
    its DSS matches, then the DSS rows without a match. *)
Definition merge_outer (aad_users : list AadUser) (dss_users : list DssUser)
    : list ComparisonRow :=
  (a ← aad_users;
   match filter (λ d, dss_key d = aad_key a) dss_users with
   | [] => [left_only a]
   | matches => both a <$> matches
   end)
  ++ (right_only <$>
        filter (λ d, dss_key d ∉ aad_key <$> aad_users) dss_users).

(** [row["login"]]. *)
Definition row_login (row : ComparisonRow) : string :=
  match row with
  | left_only a | both a _ => aad_login a
  | right_only d => login d
  end.

(** [row["license"]], after NaN has been replaced with the empty list. *)
Definition row_license (row : ComparisonRow) : list string :=
  match row with
  | left_only a | both a _ => license_aad a
  | right_only _ => []
  end.

(** The body of the loop over [user_comparison.iterrows()]. *)
Definition reconcile (self : MyRunnable) (local_groups : list string)
    (row : ComparisonRow) : M unit :=
  let user_id := row_login row in
  let user_license := get_license (row_license row) in
  match row with
  | left_only a =>
      user_create self user_id (aad_displayName a) (aad_email a)
                  (groups_aad a) user_license
  | right_only d =>
      let dss_user_type := sourceType (definition d) in
      if bool_decide (dss_user_type = "LOCAL_NO_AUTH") then
        user_delete self user_id "Not found in AAD."
      else mret tt
  | both a d =>
      let dss_user_type := sourceType (definition d) in
      if bool_decide (dss_user_type ≠ "LOCAL_NO_AUTH") then
        add_log self
          ("User " +:+ user_id +:+ " has DSS user type " +:+ dss_user_type
           +:+ ", while LOCAL_NO_AUTH was expected") "WARNING"
      else if bool_decide (user_license = "NONE") then
        user_delete self user_id "No license."
      else
        let users_local_groups :=
          elements ((list_to_set (groups (definition d)) : gset string)
                    ∩ list_to_set local_groups) in
        let all_groups := groups_aad a ++ users_local_groups in
        if bool_decide (list_diff all_groups (groups (definition d)) ≠ [])
           || bool_decide (user_license ≠ userProfile (definition d))
        then user_update self user_id all_groups user_license
        else mret tt
  end.

(** The body of the [try] of [run]: the four phases. The calls of
    [progress_callback] between them only report progress and are left
    out. *)
Definition phases (self : MyRunnable) : M unit :=
  (* Phase 1 - validate DSS groups *)
  validate_groups_df self;;
  dss_users ← client.list_users;
  dss_groups ← client.list_groups;
  let groups_from_input := dss_name <$> rows (groups_df self) in
  let local_groups := list_diff dss_groups groups_from_input in
  let missing_groups := list_diff groups_from_input dss_groups in
  if bool_decide (missing_groups ≠ []) then
    raise ("Groups " +:+ str_list missing_groups +:+ " are missing from DSS")
  else
    (* Phase 2 - query Graph *)
    set_session_headers self;;
    group_members_df ← query_graph self (rows (groups_df self)) [];
    (* Phase 3 - group data frame *)
    aad_users ← aggregate self group_members_df;
    (* Phase 4 - update DSS users *)
    let user_comparison := merge_outer aad_users dss_users in
    for_each (reconcile self local_groups) user_comparison.

(** [run(progress_callback)]: the phases under [try], the ERROR record of
    [except Exception as e], and the [finally] clause, which saves the log
    when a log dataset is configured and returns the result table. *)
Definition run (self : MyRunnable) : M ResultTable :=
  try_except (phases self) (λ e, add_log self e "ERROR");;
  (if truthy (log_dataset self)
   then save_log self (default EmptyString (log_dataset self))
   else mret tt);;
  create_resulttable.

(* ================================================================== *)
(** * Vocabulary of the properties *)

#[export] Instance AadUser_eq_dec : EqDecision AadUser.
Proof. solve_decision. Defined.

#[export] Instance UserDef_eq_dec : EqDecision UserDef.
Proof. solve_decision. Defined.

#[export] Instance DssUser_eq_dec : EqDecision DssUser.
Proof. solve_decision. Defined.

#[export] Instance ComparisonRow_eq_dec : EqDecision ComparisonRow.
Proof. solve_decision. Defined.

(** The account belongs to the macro. *)
Definition owned (d : UserDef) : Prop := sourceType d = "LOCAL_NO_AUTH".

(** The effective groups of a user present on both sides: the directory
    groups together with the current groups that are local to DSS. *)
Definition effective_groups (local_groups : list string) (a : AadUser)
    (d : UserDef) : gset string :=
  list_to_set (groups_aad a)
  ∪ (list_to_set (groups d) ∩ list_to_set local_groups).

(** The list that [reconcile] hands to [user_update]. *)
Definition all_groups_of (local_groups : list string) (a : AadUser)
    (d : UserDef) : list string :=
  groups_aad a
  ++ elements ((list_to_set (groups d) : gset string)
               ∩ list_to_set local_groups).

(** The test under which [reconcile] leaves an owned, licensed account of
    both sides alone. *)
Definition in_sync (local_groups : list string) (a : AadUser) (d : UserDef)
    : Prop :=
  list_diff (all_groups_of local_groups a d) (groups d) = []
  ∧ get_license (license_aad a) = userProfile d.

(** The decision taken for a row of the comparison, as data. *)
Inductive ReconciliationDecision :=
| do_create (user_id display_name email : string) (groups : list string)
            (user_license : string)
| do_update (user_id : string) (groups : list string) (user_license : string)
| do_delete (user_id reason : string)
| do_warn (user_id dss_user_type : string)
| no_op.

Definition decision (local_groups : list string) (row : ComparisonRow)
    : ReconciliationDecision :=
  let user_license := get_license (row_license row) in
  match row with
  | left_only a =>
      do_create (aad_login a) (aad_displayName a) (aad_email a) (groups_aad a)
                user_license
  | right_only d =>
      if bool_decide (owned (definition d))
      then do_delete (login d) "Not found in AAD." else no_op
  | both a d =>
      if bool_decide (¬ owned (definition d)) then
        do_warn (aad_login a) (sourceType (definition d))
      else if bool_decide (user_license = "NONE") then
        do_delete (aad_login a) "No license."
      else if bool_decide (in_sync local_groups a (definition d)) then no_op
      else do_update (aad_login a)
                     (all_groups_of local_groups a (definition d))
                     user_license
  end.

(** The call that carries a decision out. *)
Definition perform (self : MyRunnable) (dec : ReconciliationDecision)
    : M unit :=
  match dec with
  | do_create user_id display_name email groups user_license =>
      user_create self user_id display_name email groups user_license
  | do_update user_id groups user_license =>
      user_update self user_id groups user_license
  | do_delete user_id reason => user_delete self user_id reason
  | do_warn user_id dss_user_type =>
      add_log self
        ("User " +:+ user_id +:+ " has DSS user type " +:+ dss_user_type
         +:+ ", while LOCAL_NO_AUTH was expected") "WARNING"
  | no_op => mret tt
  end.

(** The log message of a decision, in simulate mode or after the change. *)
Definition announce (simulate : bool) (dec : ReconciliationDecision)
    : option string :=
  match dec with
  | do_create user_id _ _ groups user_license =>
      Some (if bool_decide (user_license = "NONE") then
              "User " +:+ quoted user_id
              +:+ " will not be created, since he has no license."
            else
              "User " +:+ quoted user_id
              +:+ (if simulate then " will be created and assigned groups "
                   else " has been created and assigned groups ")
              +:+ quoted (str_array groups))
  | do_update user_id groups user_license =>
      Some ("User " +:+ quoted user_id
            +:+ (if simulate then " groups will be modified to "
                 else " groups have been modified to ")
            +:+ quoted (str_list groups) +:+ ", user license "
            +:+ quoted user_license)
  | do_delete user_id reason =>
      Some ("User " +:+ quoted user_id
            +:+ (if simulate then " will be deleted. Reason: "
                 else " has been deleted. Reason: ")
            +:+ reason)
  | do_warn user_id dss_user_type =>
      Some ("User " +:+ user_id +:+ " has DSS user type " +:+ dss_user_type
            +:+ ", while LOCAL_NO_AUTH was expected")
  | no_op => None
  end.

Definition log_type_of (dec : ReconciliationDecision) : string :=
  match dec with
  | do_warn _ _ => "WARNING"
  | _ => "INFO"
  end.

(** The record that [add_log] appends in a state, and the state after. *)
Definition log_record (self : MyRunnable) (st : State)
    (message log_type : string) : LogEntry :=
  {| date := clock self (length (log_df st)); user := run_user self;
     type := log_type; message := message |}.

Definition logged (self : MyRunnable) (message log_type : string)
    (st : State) : State :=
  set_log (λ log, log ++ [log_record self st message log_type]) st.

(** Nothing but the log differs between two states. *)
Definition dss_unchanged (st st' : State) : Prop :=
  users st' = users st ∧ requests st' = requests st
  ∧ dss_groups st' = dss_groups st ∧ written st' = written st.

(** Between two states only WARNING records were added to the log. *)
Definition only_warnings (st st' : State) : Prop :=
  dss_unchanged st st'
  ∧ ∃ new, log_df st' = log_df st ++ new
           ∧ Forall (λ e, type e = "WARNING") new.

(** The account that a successful [user_create] leaves behind. *)
Definition created (display_name email : string) (groups : list string)
    (user_license : string) : UserDef :=
  {| displayName := display_name; email := email; groups := groups;
     sourceType := "LOCAL_NO_AUTH"; userProfile := user_license;
     other := ∅ |}.

(** The two sides of a comparison row. *)
Definition row_aad (row : ComparisonRow) : option AadUser :=
  match row with
  | left_only a | both a _ => Some a
  | right_only _ => None
  end.

Definition row_dss (row : ComparisonRow) : option DssUser :=
  match row with
  | right_only d | both _ d => Some d
  | left_only _ => None
  end.

(** A row as the merge makes it from a user base: its DSS side is an
    account of the base, and the two sides of a [both] row share the key. *)
Definition row_of_base (us : gmap string UserDef) (row : ComparisonRow)
    : Prop :=
  match row with
  | left_only _ => True
  | right_only d => us !! login d = Some (definition d)
  | both a d => us !! login d = Some (definition d) ∧ dss_key d = aad_key a
  end.

(** The directory grants the user a license. *)
Definition licensed (a : AadUser) : Prop :=
  get_license (license_aad a) ≠ "NONE".

(** The account under login [l] has the merge key of the directory user. *)
Definition key_match (l : string) (d : UserDef) (a : AadUser) : Prop :=
  aad_key a = (l, displayName d, email d).

(** The decision changes the user base when it is carried out. *)
Definition mutates (dec : ReconciliationDecision) : bool :=
  match dec with
  | do_create _ _ _ _ user_license => negb (bool_decide (user_license = "NONE"))
  | do_update _ _ _ | do_delete _ _ => true
  | do_warn _ _ | no_op => false
  end.

(** The state of the user base in the middle of the loop of phase 4, when
    the rows [todo] of the comparison are still to be handled:
    - every licensed directory user whose row has been handled has an
      account with its key;
    - every owned account is either the account of a licensed directory
      user, in sync with it, or the untouched account of a row to come;
    - the accounts of the rows to come are still as the comparison saw
      them. *)
Record reconciled_but (local_groups : list string)
    (aad_users : list AadUser) (todo : list ComparisonRow)
    (us : gmap string UserDef) : Prop := {
  handled_have_account :
    ∀ a, a ∈ aad_users → licensed a →
         (∀ row, row ∈ todo → row_aad row ≠ Some a) →
         ∃ d, us !! aad_login a = Some d ∧ key_match (aad_login a) d a;
  owned_are_settled :
    ∀ l d, us !! l = Some d → owned d →
           (∃ a, a ∈ aad_users ∧ licensed a ∧ key_match l d a
                 ∧ in_sync local_groups a d)
           ∨ (∃ row, row ∈ todo
                     ∧ row_dss row = Some {| login := l; definition := d |});
  todo_are_intact :
    ∀ row d, row ∈ todo → row_dss row = Some d →
             us !! login d = Some (definition d) }.

(** The accounts of other identity mechanisms are as they were. *)
Definition foreign_kept (before after : gmap string UserDef) : Prop :=
  ∀ l d, before !! l = Some d → ¬ owned d → after !! l = Some d.

(** The frame [dss_users] of a user base. *)
Definition dss_users_of (us : gmap string UserDef) : list DssUser :=
  (λ kv, {| login := kv.1; definition := kv.2 |}) <$> map_to_list us.

(** What the directory contributes, as functions of the instance alone:
    the member rows of phase 2 and the table [aad_users] of phase 3. *)
Definition members_of_row (self : MyRunnable) (row : GroupsRow)
    : list DirectoryMember :=
  match group_search (session self) (aad_name row) with
  | Returned (id :: _) =>
      if truthy (Some id) then
        match members_frame self id (dss_name row) with
        | Returned group_members => group_members
        | Raised _ => []
        end
      else []
  | _ => []
  end.

Definition directory_members (self : MyRunnable) : list DirectoryMember :=
  rows (groups_df self) ≫= members_of_row self.

Definition aad_users_of (self : MyRunnable) : list AadUser :=
  groupby_unique
    (merge_license (sort_values (directory_members self))
       ((λ r, (dss_name r, license r)) <$> rows (groups_df self))).

Definition local_groups_of (self : MyRunnable) (dss_groups : list string)
    : list string :=
  list_diff dss_groups (dss_name <$> rows (groups_df self)).

(** The exception, if any, that ends a run before phase 4. *)
Definition preflight (self : MyRunnable) (dss_groups : list string)
    : option string :=
  let impossible_licenses :=
    list_diff (unique (license <$> rows (groups_df self)))
              possible_licenses in
  let missing_groups :=
    list_diff (dss_name <$> rows (groups_df self)) dss_groups in
  if bool_decide (columns (groups_df self) = mandatory_columns) then
    if bool_decide (impossible_licenses = []) then
      if bool_decide (missing_groups ≠ []) then
        Some ("Groups " +:+ str_list missing_groups
              +:+ " are missing from DSS")
      else
        match context_error (session self) with
        | Some msg => Some msg
        | None =>
            if bool_decide
                 (auth_method self ∈
                    ["auth_app_token"; "auth_app_cert"; "auth_user_pwd"]) then
              match token_error (session self) (auth_method self) with
              | Some msg => Some msg
              | None =>
                  if bool_decide (directory_members self = [])
                  then Some "'login'" else None
              end
            else Some "Invalid authentication method"
        end
    else
      Some ("Invalid license types were found in the groups configuration: "
            +:+ str_list impossible_licenses
            +:+ ". Valid license values are: " +:+ str_list possible_licenses)
  else
    Some ("The groups dataset is not correctly configured."
          +:+ " It should contain these columns: "
          +:+ str_list mandatory_columns).

(** The state in which phase 4 starts: the queries of phase 2 have logged
    their warnings. *)
Definition state_after_queries (self : MyRunnable) (st : State) : State :=
  (query_graph self (rows (groups_df self)) [] st).2.

(** The same instance with another simulate flag. *)
Definition with_simulate (flag : bool) (self : MyRunnable) : MyRunnable :=
  {| flag_simulate := flag; auth_method := auth_method self;
     log_dataset := log_dataset self; groups_df := groups_df self;
     run_user := run_user self; session := session self;
     clock := clock self;
     dataset_write_error := dataset_write_error self |}.

(** The comparison table of a run from a state. *)
Definition user_comparison_of (self : MyRunnable) (st : State)
    : list ComparisonRow :=
  merge_outer (aad_users_of self) (dss_users_of (users st)).

(* ================================================================== *)
(** * Scenarios *)

Definition graph_no_group : Session :=
  {| context_error := None; token_error := λ _, None;
     group_search := λ _, Returned [];
     group_members := λ _, members_last [] |}.

Definition graph_no_member : Session :=
  {| context_error := None; token_error := λ _, None;
     group_search := λ _, Returned ["id-eng"];
     group_members := λ _, members_last [] |}.

Definition one_row_mapping : GroupsDf :=
  {| columns := mandatory_columns;
     rows := [ {| dss_name := "eng"; aad_name := "Eng-AAD";
                  license := "READER" |} ] |}.

Definition macro (simulate : bool) (log : option string) (df : GroupsDf)
    (graph : Session) : MyRunnable :=
  {| flag_simulate := simulate; auth_method := "auth_app_token";
     log_dataset := log; groups_df := df; run_user := "admin";
     session := graph; clock := λ _, "2020-01-01 00:00:00.000000";
     dataset_write_error := λ _, Some "Dataset cannot be written" |}.

Definition account (name mail : string) (gs : list string)
    (source profile : string) : UserDef :=
  {| displayName := name; email := mail; groups := gs; sourceType := source;
     userProfile := profile; other := ∅ |}.

Definition dss (us : gmap string UserDef) (gs : list string) : State :=
  {| log_df := []; users := us; dss_groups := gs; requests := [];
     written := [] |}.

(** Scenario C: the directory group is gone, the local user persists. *)
Definition a_x : UserDef :=
  account "Alice" "a@x.com" ["eng"] "LOCAL_NO_AUTH" "READER".

Definition scenario_C : State := dss {[ "a_x.com" := a_x ]} ["eng"].

Definition a_x_row : ComparisonRow :=
  right_only {| login := "a_x.com"; definition := a_x |}.

(** The directory group of "eng" is gone while the one of "ops" still has
    Bob as a member. *)
Definition graph_eng_gone : Session :=
  {| context_error := None; token_error := λ _, None;
     group_search := λ name,
       if String.eqb name "Ops-AAD" then Returned ["id-ops"] else Returned [];
     group_members := λ _, members_last [("Bob", "b@x.com")] |}.

Definition bob_aad : AadUser :=
  {| aad_login := "b_x.com"; aad_displayName := "Bob";
     aad_email := "b@x.com"; groups_aad := ["ops"];
     license_aad := ["READER"] |}.

(** A groups dataset without its second column. *)
Definition bad_mapping : GroupsDf :=
  {| columns := ["dss_name"; "license"]; rows := [] |}.

(** An LDAP account whose owner is a member of the directory group. *)
Definition carol : UserDef :=
  account "Carol" "c@x.com" ["eng"] "LDAP" "READER".

Definition graph_carol : Session :=
  {| context_error := None; token_error := λ _, None;
     group_search := λ _, Returned ["id-eng"];
     group_members := λ _, members_last [("Carol", "c@x.com")] |}.

Definition with_carol : State := dss {[ "c_x.com" := carol ]} ["eng"].

(** A user who left the directory group "ops" and is still in "eng". *)
Definition two_row_mapping : GroupsDf :=
  {| columns := mandatory_columns;
     rows := [ {| dss_name := "eng"; aad_name := "Eng-AAD";
                  license := "READER" |};
               {| dss_name := "ops"; aad_name := "Ops-AAD";
                  license := "READER" |} ] |}.

Definition graph_after_leaving : Session :=
  {| context_error := None; token_error := λ _, None;
     group_search := λ name,
       if String.eqb name "Eng-AAD" then Returned ["id-eng"]
       else if String.eqb name "Ops-AAD" then Returned ["id-ops"]
       else Returned [];
     group_members := λ id,
       if String.eqb id "id-eng" then members_last [("Alice", "a@x.com")]
       else members_last [("Bob", "b@x.com")] |}.

Definition alice_aad : AadUser :=
  {| aad_login := "a_x.com"; aad_displayName := "Alice";
     aad_email := "a@x.com"; groups_aad := ["eng"];
     license_aad := ["READER"] |}.

Definition alice_dss : DssUser :=
  {| login := "a_x.com";
     definition :=
       account "Alice" "a@x.com" ["eng"; "ops"] "LOCAL_NO_AUTH" "READER" |}.

Definition after_leaving : State :=
  dss {[ "a_x.com" := definition alice_dss;
         "b_x.com" :=
           account "Bob" "b@x.com" ["ops"] "LOCAL_NO_AUTH" "READER" ]}
      ["eng"; "ops"].

(** A team to synchronise: Alice is new, Bob is known and also in a group
    that is local to DSS, Dave has left the directory. *)
Definition graph_team : Session :=
  {| context_error := None; token_error := λ _, None;
     group_search := λ name,
       if String.eqb name "Eng-AAD" then Returned ["id-eng"]
       else if String.eqb name "Ops-AAD" then Returned ["id-ops"]
       else Returned [];
     group_members := λ id,
       if String.eqb id "id-eng"
       then members_page [("Alice", "a@x.com")]
                         (members_last [("Bob", "b@x.com")])
       else members_last [("Bob", "b@x.com")] |}.

Definition before_sync : State :=
  dss {[ "b_x.com" :=
           account "Bob" "b@x.com" ["contractors"] "LOCAL_NO_AUTH" "READER";
         "d_x.com" :=
           account "Dave" "d@x.com" ["eng"] "LOCAL_NO_AUTH" "READER";
         "c_x.com" := carol ]}
      ["eng"; "ops"; "contractors"].

Definition eng_and_ops : State :=
  dss {[ "a_x.com" := a_x;
         "b_x.com" :=
           account "Bob" "b@x.com" ["ops"] "LOCAL_NO_AUTH" "READER" ]}
      ["eng"; "ops"].

(* ================================================================== *)
(** * Construction of the macro and its credentials *)

(** A value of the configuration dict of the macro: [None], a flag or a
    text. *)
Inductive Value :=
| VNone
| VBool (b : bool)
| VStr (s : string).

#[export] Instance Value_eq_dec : EqDecision Value.
Proof. solve_decision. Defined.

(** Truth value of a configuration value. *)
Definition truth (v : Value) : bool :=
  match v with
  | VNone => false
  | VBool b => b
  | VStr s => negb (String.eqb s EmptyString)
  end.

(** How each credential is named in the user's secrets. *)
Definition credentials_labels : gmap string string :=
  {[ "graph_tenant_id" := "Tenant ID";
     "graph_app_id" := "Application ID";
     "graph_app_secret" := "App secret";
     "graph_app_cert" := "App certificate";
     "graph_app_cert_thumb" := "App certificate thumbprint";
     "graph_user" := "User principal";
     "graph_user_pwd" := "User password" ]}.

(** [get_required_credentials(auth_method)]. *)
Definition get_required_credentials (auth_method : Value) : list string :=
  let required_credentials := ["graph_tenant_id"; "graph_app_id"] in
  if bool_decide (auth_method = VStr "auth_app_token") then
    required_credentials ++ ["graph_app_secret"]
  else if bool_decide (auth_method = VStr "auth_app_cert") then
    required_credentials ++ ["graph_app_cert"; "graph_app_cert_thumb"]
  else if bool_decide (auth_method = VStr "auth_user_pwd") then
    required_credentials ++ ["graph_user"; "graph_user_pwd"]
  else required_credentials.

(** The fields of the instance that [get_credentials] reads, with the
    secrets of the user profile as [get_auth_info(with_secrets=True)]
    returns them (pairs of a key and a value). *)
Record Settings := {
  config : gmap string Value;
  user_secrets : list (string * string);
  required_credentials : list string }.

(** [{secret["key"]: secret["value"] for secret in user_secrets}]: of two
    secrets with one key the later one stays. *)
Definition secrets_dict_of (user_secrets : list (string * string))
    : gmap string Value :=
  foldl (λ d secret, <[secret.1 := VStr secret.2]> d) ∅ user_secrets.

(** The loop of [get_credentials] over the remaining required keys. A key
    without a label raises [KeyError(key)] outside the [try]; a value that
    is absent or false adds the label to [missing_credentials]. *)
Fixpoint read_credentials (source : string) (secrets_dict : gmap string Value)
    (keys : list string) (credentials : gmap string Value)
    (missing_credentials : list string)
    : outcome (gmap string Value * list string) :=
  match keys with
  | [] => Returned (credentials, missing_credentials)
  | key :: rest =>
      match credentials_labels !! key with
      | None => Raised (repr key)
      | Some label =>
          match secrets_dict
                !! (if bool_decide (source = "user") then label else key) with
          | Some v =>
              read_credentials source secrets_dict rest
                (<[key := v]> credentials)
                (if truth v then missing_credentials
                 else missing_credentials ++ [label])
          | None =>
              read_credentials source secrets_dict rest credentials
                (missing_credentials ++ [label])
          end
      end
  end.

(** [get_credentials(source)]. The text of the [KeyError] that reports the
    missing credentials is the [repr] of its message, which holds single
    quotes and is therefore put between double quotes. *)
Definition get_credentials (self : Settings) (source : string)
    : outcome (gmap string Value) :=
  let secrets_dict :=
    if bool_decide (source = "user") then secrets_dict_of (user_secrets self)
    else config self in
  match read_credentials source secrets_dict (required_credentials self) ∅ []
  with
  | Raised e => Raised e
  | Returned (credentials, missing_credentials) =>
      if bool_decide (missing_credentials ≠ []) then
        Raised (quoted ("Please specify these credentials: "
                        +:+ str_list missing_credentials))
      else Returned credentials
  end.

(** DSS as the constructor reaches it: the data frame of a dataset, the
    identifier of the user who runs the macro and the secrets of that
    user. *)
Record Platform := {
  get_dataframe : Value → outcome GroupsDf;
  auth_identifier : string;
  secrets : list (string * string) }.

(** The attributes that [__init__] sets. *)
Record Instance := {
  i_config : gmap string Value;
  i_flag_simulate : Value;
  i_groups_df : GroupsDf;
  i_run_user : string;
  i_log_df : list LogEntry;
  i_required_credentials : list string;
  i_credentials : gmap string Value }.

(** [__init__(project_key, config, plugin_config)]. *)
Definition init (dss : Platform) (config : gmap string Value)
    : outcome Instance :=
  match config !! "flag_simulate" with
  | None => Raised (repr "flag_simulate")
  | Some flag_simulate =>
      if negb (truth (default VNone (config !! "groups_dataset"))) then
        Raised "No groups dataset has been selected."
      else
        match get_dataframe dss (default VNone (config !! "groups_dataset"))
        with
        | Raised e => Raised e
        | Returned groups_df =>
            match config !! "auth_method" with
            | None => Raised (repr "auth_method")
            | Some auth_method =>
                let required_credentials :=
                  get_required_credentials auth_method in
                match config !! "flag_user_credentials" with
                | None => Raised (repr "flag_user_credentials")
                | Some flag_user_credentials =>
                    let settings :=
                      {| config := config; user_secrets := secrets dss;
                         required_credentials := required_credentials |} in
                    match get_credentials settings
                            (if truth flag_user_credentials then "user"
                             else "parameters") with
                    | Raised e => Raised e
                    | Returned credentials =>
                        Returned
                          {| i_config := config;
                             i_flag_simulate := flag_simulate;
                             i_groups_df := groups_df;
                             i_run_user := auth_identifier dss;
                             i_log_df := [];
                             i_required_credentials := required_credentials;
                             i_credentials := credentials |}
                    end
                end
            end
        end
  end.

(** The credentials that [set_session_headers] reads for the configured
    method, in the order in which it reads them: the tenant for the
    authentication context, then the arguments of the token request. *)
Definition credentials_read (auth_method : Value) : list string :=
  "graph_tenant_id"
  :: (if bool_decide (auth_method = VStr "auth_app_token") then
        ["graph_app_id"; "graph_app_secret"]
      else if bool_decide (auth_method = VStr "auth_app_cert") then
        ["graph_app_id"; "graph_app_cert"; "graph_app_cert_thumb"]
      else if bool_decide (auth_method = VStr "auth_user_pwd") then
        ["graph_user"; "graph_user_pwd"; "graph_app_id"]
      else []).

(** [clear_log()]. *)
Definition clear_log : M unit := λ st, (Returned tt, set_log (λ _, []) st).

(* ================================================================== *)
(** * Vocabulary of the properties of the phases *)

(** The value that [get_credentials] finds for a required key. *)
Definition credential_of (self : Settings) (source : string) (key : string)
    : option Value :=
  label ← credentials_labels !! key;
  (if bool_decide (source = "user") then secrets_dict_of (user_secrets self)
   else config self)
    !! (if bool_decide (source = "user") then label else key).

(** The required keys whose credential is absent or false. *)
Definition missing_keys (self : Settings) (source : string) : list string :=
  filter (λ key, truth (default VNone (credential_of self source key)) = false)
         (required_credentials self).

(** The pages of a member listing, and the failure that ends it. *)
Fixpoint pages_of (r : MembersResponse) : list (list (string * string)) :=
  match r with
  | members_failure _ => []
  | members_last value => [value]
  | members_page value next_link => value :: pages_of next_link
  end.

Fixpoint failure_of (r : MembersResponse) : option string :=
  match r with
  | members_failure msg => Some msg
  | members_last _ => None
  | members_page _ next_link => failure_of next_link
  end.

(** The row of the groups dataset makes phase 2 log a WARNING: its group
    is not found, or its members cannot be listed. *)
Definition warned (self : MyRunnable) (row : GroupsRow) : bool :=
  match group_search (session self) (aad_name row) with
  | Returned (id :: _) =>
      if truthy (Some id) then
        match members_frame self id (dss_name row) with
        | Returned _ => false
        | Raised _ => true
        end
      else false
  | _ => true
  end.

(** The merge key of a member row. *)
Definition key_of_member (m : DirectoryMember) : string * string * string :=
  (m_login m, m_displayName m, m_email m).

(** A request that the macro is entitled to send, given the user base at
    the start of the run: it creates an account of its own kind without a
    password and with a license, it writes an account of its own kind with
    a license, or it deletes an account that was of its own kind. *)
Definition entitled (before : gmap string UserDef) (r : Request) : Prop :=
  match r with
  | POST_user _ _ _ password source_type profile =>
      password = EmptyString ∧ source_type = "LOCAL_NO_AUTH"
      ∧ profile ∈ possible_licenses ∧ profile ≠ "NONE"
  | PUT_user _ def =>
      owned def ∧ userProfile def ∈ possible_licenses
      ∧ userProfile def ≠ "NONE"
  | DELETE_user l => ∃ d, before !! l = Some d ∧ owned d
  end.

(** Every account is as it was at the start of the run or belongs to the
    macro. *)
Definition kept_or_owned (before after : gmap string UserDef) : Prop :=
  ∀ l d, after !! l = Some d → before !! l = Some d ∨ owned d.

(** The records of the result table for a log. *)
Definition records_of (log : list LogEntry) : list (list string) :=
  (λ log_row, [date log_row; user log_row; type log_row; message log_row])
    <$> log.

(** Scenarios. *)
Definition app_token_config : gmap string Value :=
  {[ "flag_simulate" := VBool true;
     "groups_dataset" := VStr "groups";
     "auth_method" := VStr "auth_app_token";
     "flag_user_credentials" := VBool false;
     "graph_tenant_id" := VStr "tenant";
     "graph_app_id" := VStr "app";
     "graph_app_secret" := VStr "secret" ]}.

Definition platform : Platform :=
  {| get_dataframe := λ _, Returned one_row_mapping;
     auth_identifier := "admin";
     secrets := [("Tenant ID", "tenant"); ("Application ID", EmptyString)] |}.

(** A groups dataset whose only group gives no license, and the directory
    user that phase 3 makes of Carol with it. *)
Definition guests_mapping : GroupsDf :=
  {| columns := mandatory_columns;
     rows := [ {| dss_name := "eng"; aad_name := "Eng-AAD";
                  license := "NONE" |} ] |}.

Definition guest_aad : AadUser :=
  {| aad_login := "c_x.com"; aad_displayName := "Carol";
     aad_email := "c@x.com"; groups_aad := ["eng"];
     license_aad := ["NONE"] |}.

(** Carol has an account of the macro under another display name. *)
Definition renamed_carol : State :=
  dss {[ "c_x.com" :=
           account "Carol C." "c@x.com" ["eng"] "LOCAL_NO_AUTH" "READER" ]}
      ["eng"].

(** The same instance with datasets that can be written. *)
Definition writable (self : MyRunnable) : MyRunnable :=
  {| flag_simulate := flag_simulate self; auth_method := auth_method self;
     log_dataset := log_dataset self; groups_df := groups_df self;
     run_user := run_user self; session := session self;
     clock := clock self; dataset_write_error := λ _, None |}.

Definition settings_of (source_config : gmap string Value) : Settings :=
  {| config := source_config; user_secrets := secrets platform;
     required_credentials :=
       get_required_credentials (VStr "auth_app_token") |}.

(* ================================================================== *)
(** * The License Resolver *)

Section first_license_in.
Context (license_list : list string).

Lemma first_license_in_none candidates :
  (∀ x, x ∈ candidates → x ∉ license_list) →
  first_license_in candidates license_list = "NONE".
Proof.
  induction candidates as [|c cs IH]; intros Hnone; simpl; [done|].
  rewrite bool_decide_eq_false_2; [|apply Hnone; left].
  apply IH. intros x Hx. apply Hnone. by right.
Qed.

Lemma first_license_in_first candidates :
  (∃ x, x ∈ candidates ∧ x ∈ license_list) →
  ∃ i, candidates !! i = Some (first_license_in candidates license_list)
       ∧ first_license_in candidates license_list ∈ license_list
       ∧ ∀ j y, candidates !! j = Some y → y ∈ license_list → i ≤ j.
Proof.
  induction candidates as [|c cs IH]; intros (x & Hx & Hin).
  { by apply elem_of_nil in Hx. }
  simpl. case_bool_decide as Hc.
  - exists 0. repeat split; [done|]. intros; lia.
  - apply elem_of_cons in Hx as [->|Hx]; [done|].
    destruct IH as (i & Hi & Hr & Hmin); [by exists x|].
    exists (S i). repeat split; [done..|].
    intros [|j] y Hj Hy; simpl in Hj.
    + by simplify_eq.
    + specialize (Hmin j y Hj Hy). lia.
Qed.

Lemma first_license_in_range candidates :
  first_license_in candidates license_list ∈ candidates
  ∨ first_license_in candidates license_list = "NONE".
Proof.
  induction candidates as [|c cs IH]; simpl; [by right|].
  case_bool_decide; [left; left|].
  destruct IH as [IH|IH]; [left; by right|by right].
Qed.

End first_license_in.

Lemma first_license_in_ext candidates l1 l2 :
  (∀ x, x ∈ candidates → x ∈ l1 ↔ x ∈ l2) →
  first_license_in candidates l1 = first_license_in candidates l2.
Proof.
  induction candidates as [|c cs IH]; intros Hext; simpl; [done|].
  rewrite (bool_decide_ext (c ∈ l1) (c ∈ l2)); [|apply Hext; left].
  rewrite IH; [done|]. intros x Hx. apply Hext. by right.
Qed.

Lemma get_license_recognized license_list :
  get_license license_list ∈ possible_licenses.
Proof.
  destruct (first_license_in_range license_list possible_licenses) as [H|H];
    [done|].
  unfold get_license. rewrite H. unfold possible_licenses.
  do 4 right. left.
Qed.

(** C2. [get_license] is a total function of the list of labels. Its result
    is always a recognized label, and labels outside [possible_licenses] do
    not influence it. When the list holds a recognized label, the result is
    a member of the list and no recognized member of the list comes earlier
    in the potency order DATA_SCIENTIST, DATA_ANALYST, READER, EXPLORER,
    NONE. When the list holds no recognized label (the empty list included)
    the result is "NONE". *)
Theorem get_license_most_potent (license_list : list string) :
  get_license license_list ∈ possible_licenses
  ∧ get_license license_list
    = get_license (filter (λ x, x ∈ possible_licenses) license_list)
  ∧ ((∃ x, x ∈ possible_licenses ∧ x ∈ license_list) →
     get_license license_list ∈ license_list
     ∧ ∃ i, possible_licenses !! i = Some (get_license license_list)
            ∧ ∀ j y, possible_licenses !! j = Some y → y ∈ license_list →
                     i ≤ j)
  ∧ ((∀ x, x ∈ license_list → x ∉ possible_licenses) →
     get_license license_list = "NONE").
Proof.
  split; [apply get_license_recognized|]. split; [|split].
  - apply first_license_in_ext. intros x Hx.
    rewrite list_elem_of_filter. tauto.
  - intros Hex.
    destruct (first_license_in_first license_list possible_licenses Hex)
      as (i & Hi & Hin & Hmin).
    split; [done|]. by exists i.
  - intros Hnone. apply first_license_in_none.
    intros x Hx Hin. by apply (Hnone x).
Qed.

Lemma get_license_most_potent_witness :
  get_license ["READER"; "bogus"; "DATA_ANALYST"]
    ∈ ["READER"; "bogus"; "DATA_ANALYST"]
  ∧ get_license ["bogus"] = "NONE"
  ∧ get_license [] = "NONE".
Proof.
  pose proof (get_license_most_potent ["READER"; "bogus"; "DATA_ANALYST"])
    as (_ & _ & Hsome & _).
  pose proof (get_license_most_potent ["bogus"]) as (_ & _ & _ & Hnone1).
  pose proof (get_license_most_potent []) as (_ & _ & _ & Hnone2).
  split; [|split].
  - apply Hsome. exists "READER".
    split; apply (bool_decide_unpack _); exact I.
  - apply Hnone1. intros x Hx%list_elem_of_singleton Hp. subst x.
    exact (bool_decide_unpack (¬ "bogus" ∈ possible_licenses) I Hp).
  - apply Hnone2. intros x Hx. by apply elem_of_nil in Hx.
Defined.

(* ================================================================== *)
(** * The user identifier *)

Lemma replace_char_absent old new s :
  has_char old s = false → replace_char old new s = s.
Proof.
  induction s as [|c s IH]; simpl; [done|].
  intros [Hc Hs]%orb_false_elim. rewrite Hc. by rewrite IH.
Qed.

Lemma get_user_id_has_underscore s d :
  domain_part s = Some d → has_char "_"%char (get_user_id s) = true.
Proof.
  unfold get_user_id. induction s as [|c s IH]; simpl; [done|].
  destruct (Ascii.eqb c "@") eqn:Hc; [done|].
  intros Hd. rewrite (IH Hd). apply orb_true_r.
Qed.

Lemma get_user_id_plain_inj e1 e2 :
  plain_address e1 = true → plain_address e2 = true →
  get_user_id e1 = get_user_id e2 → e1 = e2.
Proof.
  unfold plain_address. revert e2.
  induction e1 as [|c1 s1 IH]; intros [|c2 s2]; simpl; try done.
  intros H1 H2 Heq. injection Heq as Hc Hs.
  fold (get_user_id s1) in Hs. fold (get_user_id s2) in Hs.
  destruct (Ascii.eqb c1 "@") eqn:E1, (Ascii.eqb c2 "@") eqn:E2.
  - apply Ascii.eqb_eq in E1, E2. subst c1 c2.
    apply andb_true_iff in H1 as [H1 _], H2 as [H2 _].
    apply negb_true_iff in H1, H2.
    unfold get_user_id in Hs.
    rewrite !replace_char_absent in Hs by done. by subst.
  - (* the first address ends its local part here, the second has not *)
    exfalso. destruct (domain_part s2) as [d2|] eqn:Hd2; [|done].
    apply andb_true_iff in H1 as [H1a H1u].
    apply negb_true_iff in H1a, H1u.
    pose proof (get_user_id_has_underscore _ _ Hd2) as Hu.
    rewrite <- Hs in Hu. unfold get_user_id in Hu.
    rewrite replace_char_absent in Hu by done. congruence.
  - exfalso. destruct (domain_part s1) as [d1|] eqn:Hd1; [|done].
    apply andb_true_iff in H2 as [H2a H2u].
    apply negb_true_iff in H2a, H2u.
    pose proof (get_user_id_has_underscore _ _ Hd1) as Hu.
    rewrite Hs in Hu. unfold get_user_id in Hu.
    rewrite replace_char_absent in Hu by done. congruence.
  - subst c2. f_equal. by apply IH.
Qed.

(** C3, as the code has it. [get_user_id] is a function of the address, and
    it is injective on addresses [local@domain] that hold a single ["@"] and
    no ["_"] in the domain: two distinct such addresses get distinct user
    identifiers. *)
Theorem get_user_id_injective_on_plain (e1 e2 : string) :
  plain_address e1 = true → plain_address e2 = true →
  e1 ≠ e2 → get_user_id e1 ≠ get_user_id e2.
Proof.
  intros H1 H2 Hne Heq. apply Hne. by apply get_user_id_plain_inj.
Qed.

Lemma get_user_id_injective_on_plain_witness :
  get_user_id "a_b@x.com" ≠ get_user_id "a.b@x.com".
Proof.
  apply get_user_id_injective_on_plain; [reflexivity|reflexivity|discriminate].
Defined.

(** C3, as stated, fails: two distinct addresses with one ["@"] each share
    a user identifier. *)
Lemma get_user_id_collision :
  "a_b@x.com" ≠ "a@b_x.com"
  ∧ get_user_id "a_b@x.com" = get_user_id "a@b_x.com".
Proof. split; [discriminate|reflexivity]. Qed.

(* ================================================================== *)
(** * Methods and decisions *)

Ltac unfold_M :=
  unfold mbind, M_bind, bind, mret, M_ret, ret, raise, try_except in *.

Lemma add_log_logged self message log_type st :
  add_log self message log_type st
  = (Returned tt, logged self message log_type st).
Proof. reflexivity. Qed.

Lemma dss_unchanged_refl st : dss_unchanged st st.
Proof. by repeat split. Qed.

Lemma dss_unchanged_trans st1 st2 st3 :
  dss_unchanged st1 st2 → dss_unchanged st2 st3 → dss_unchanged st1 st3.
Proof. unfold dss_unchanged. intuition congruence. Qed.

Lemma dss_unchanged_logged self message log_type st :
  dss_unchanged st (logged self message log_type st).
Proof. by repeat split. Qed.

Lemma in_sync_test local_groups a d :
  bool_decide (list_diff (all_groups_of local_groups a d) (groups d) ≠ [])
  || bool_decide (get_license (license_aad a) ≠ userProfile d)
  = negb (bool_decide (in_sync local_groups a d)).
Proof.
  unfold in_sync. by rewrite bool_decide_and, negb_andb, <- !bool_decide_not.
Qed.

(** The loop body is the call that carries the decision out. *)
Lemma reconcile_perform self local_groups row :
  reconcile self local_groups row = perform self (decision local_groups row).
Proof.
  destruct row as [a|d|a d]; simpl; [done|..].
  - unfold owned. by case_bool_decide.
  - unfold owned, reconcile. simpl.
    fold (all_groups_of local_groups a (definition d)).
    rewrite in_sync_test.
    destruct (bool_decide (sourceType (definition d) ≠ "LOCAL_NO_AUTH"));
      [done|].
    destruct (bool_decide (get_license (license_aad a) = "NONE")); [done|].
    by destruct (bool_decide (in_sync local_groups a (definition d))).
Qed.

Lemma announce_count decs :
  length (omap (announce true) decs) = length (omap (announce false) decs).
Proof.
  induction decs as [|dec decs IH]; [done|].
  destruct dec; simpl; try (f_equal; exact IH). exact IH.
Qed.

(** In simulate mode a decision is carried out by logging its message. *)
Lemma perform_simulate self dec st :
  flag_simulate self = true →
  perform self dec st
  = match announce true dec with
    | Some m => (Returned tt, logged self m (log_type_of dec) st)
    | None => (Returned tt, st)
    end.
Proof.
  intros Hsim. destruct dec; simpl; try done.
  - unfold user_create. rewrite Hsim. by case_bool_decide.
  - unfold user_update. by rewrite Hsim.
  - unfold user_delete. by rewrite Hsim.
Qed.

(** Without simulate, a decision that is carried out without an exception
    has logged its message, as the last thing it did. *)
Lemma perform_real_log self dec st st' :
  flag_simulate self = false →
  perform self dec st = (Returned tt, st') →
  message <$> log_df st'
  = (message <$> log_df st) ++ option_list (announce false dec).
Proof.
  intros Hsim. destruct dec; simpl.
  - unfold user_create. rewrite Hsim. case_bool_decide.
    + intros [= <-]. simpl. by rewrite fmap_app.
    + unfold_M. unfold client.create_user, client.get_definition,
        client.set_definition, add_log. simpl.
      repeat (case_match; simplify_eq/=; try done).
      intros [= <-]. simpl. by rewrite fmap_app.
  - unfold user_update. rewrite Hsim. unfold_M.
    unfold client.get_definition, client.set_definition, add_log. simpl.
    repeat (case_match; simplify_eq/=; try done).
    intros [= <-]. simpl. by rewrite fmap_app.
  - unfold user_delete. rewrite Hsim. unfold_M.
    unfold client.delete, add_log. simpl.
    repeat (case_match; simplify_eq/=; try done).
    intros [= <-]. simpl. by rewrite fmap_app.
  - intros [= <-]. simpl. by rewrite fmap_app.
  - unfold_M. intros [= <-]. by rewrite app_nil_r.
Qed.

Lemma for_each_simulate self decs st :
  flag_simulate self = true →
  ∃ st', for_each (perform self) decs st = (Returned tt, st')
         ∧ dss_unchanged st st'
         ∧ message <$> log_df st'
           = (message <$> log_df st) ++ omap (announce true) decs.
Proof.
  intros Hsim. revert st.
  induction decs as [|dec decs IH]; intros st; simpl.
  { exists st. unfold_M. split; [done|]. split; [apply dss_unchanged_refl|].
    by rewrite app_nil_r. }
  unfold_M. rewrite (perform_simulate _ _ _ Hsim).
  destruct (announce true dec) as [m|] eqn:Hm.
  - destruct (IH (logged self m (log_type_of dec) st))
      as (st' & Hrun & Hdss & Hlog).
    exists st'. split; [done|]. split.
    + eapply dss_unchanged_trans; [apply dss_unchanged_logged|done].
    + rewrite Hlog. simpl. rewrite fmap_app. simpl. by rewrite <- app_assoc.
  - destruct (IH st) as (st' & Hrun & Hdss & Hlog). by exists st'.
Qed.

Lemma for_each_real_log self decs st st' :
  flag_simulate self = false →
  for_each (perform self) decs st = (Returned tt, st') →
  message <$> log_df st'
  = (message <$> log_df st) ++ omap (announce false) decs.
Proof.
  intros Hsim. revert st.
  induction decs as [|dec decs IH]; intros st; simpl.
  { unfold_M. intros [= <-]. by rewrite app_nil_r. }
  unfold_M. destruct (perform self dec st) as [[[]|e] st1] eqn:Hdec; [|done].
  intros Hrest. rewrite (IH _ Hrest).
  rewrite (perform_real_log _ _ _ _ Hsim Hdec).
  destruct (announce false dec); simpl; by rewrite <- ?app_assoc, ?app_nil_r.
Qed.

Lemma for_each_fmap {A B} (f : A → B) (body : B → M unit) (l : list A) :
  for_each body (f <$> l) = for_each (body ∘ f) l.
Proof.
  induction l as [|x l IH]; [done|].
  rewrite fmap_cons. cbn [for_each]. by rewrite IH.
Qed.

Lemma for_each_ext {A} (body1 body2 : A → M unit) (l : list A) :
  (∀ x, body1 x = body2 x) → for_each body1 l = for_each body2 l.
Proof. intros H. induction l as [|x l IH]; simpl; [done|]. by rewrite H, IH. Qed.

Lemma for_each_reconcile self local_groups table :
  for_each (reconcile self local_groups) table
  = for_each (perform self) (decision local_groups <$> table).
Proof.
  rewrite for_each_fmap. apply for_each_ext. intros row.
  apply reconcile_perform.
Qed.

(* ================================================================== *)
(** * Phases 1 to 3 *)

Lemma only_warnings_refl st : only_warnings st st.
Proof.
  split; [apply dss_unchanged_refl|]. exists []. by rewrite app_nil_r.
Qed.

Lemma only_warnings_trans st1 st2 st3 :
  only_warnings st1 st2 → only_warnings st2 st3 → only_warnings st1 st3.
Proof.
  intros [Hd1 (n1 & Hl1 & Hw1)] [Hd2 (n2 & Hl2 & Hw2)].
  split; [by eapply dss_unchanged_trans|].
  exists (n1 ++ n2). rewrite Hl2, Hl1, app_assoc. split; [done|].
  by apply Forall_app.
Qed.

Lemma only_warnings_logged self message st :
  only_warnings st (logged self message "WARNING" st).
Proof.
  split; [apply dss_unchanged_logged|].
  eexists. split; [done|]. by repeat constructor.
Qed.

(** A group lookup never raises: it returns the first id found or [None],
    and logs at most a WARNING. *)
Lemma query_group_returns self group_name_aad st :
  ∃ st', query_group self group_name_aad st
         = (Returned match group_search (session self) group_name_aad with
                     | Returned (id :: _) => Some id
                     | _ => None
                     end, st')
         ∧ only_warnings st st'.
Proof.
  unfold query_group.
  destruct (group_search (session self) group_name_aad) as [[|id ids]|e].
  - eexists. split; [done|]. apply only_warnings_logged.
  - eexists. split; [done|]. apply only_warnings_refl.
  - eexists. split; [done|]. apply only_warnings_logged.
Qed.

(** A member listing never raises either. *)
Lemma query_members_returns self group_id group_name_dss st :
  ∃ st', query_members self group_id group_name_dss st
         = (Returned match members_frame self group_id group_name_dss with
                     | Returned group_members => Some group_members
                     | Raised _ => None
                     end, st')
         ∧ only_warnings st st'.
Proof.
  unfold query_members.
  destruct (members_frame self group_id group_name_dss) as [f|e].
  - eexists. split; [done|]. apply only_warnings_refl.
  - eexists. split; [done|]. apply only_warnings_logged.
Qed.

(** The loop of phase 2 always completes: whatever the directory answers
    for each group, it returns the rows of the groups that could be listed
    and has logged nothing but WARNING records. *)
Lemma query_graph_returns self rows group_members_df st :
  ∃ st', query_graph self rows group_members_df st
         = (Returned (group_members_df ++ (rows ≫= members_of_row self)), st')
         ∧ only_warnings st st'.
Proof.
  revert group_members_df st.
  induction rows as [|row rest IH]; intros df st.
  { exists st. simpl. rewrite app_nil_r. split; [done|].
    apply only_warnings_refl. }
  cbn [query_graph]. unfold_M.
  destruct (query_group_returns self (aad_name row) st) as (st1 & -> & Hw1).
  rewrite bind_cons. unfold members_of_row at 1.
  destruct (group_search (session self) (aad_name row)) as [[|id ids]|e].
  - simpl. destruct (IH df st1) as (st' & -> & Hw). exists st'.
    split; [done|]. by eapply only_warnings_trans.
  - destruct (truthy (Some id)) eqn:Hid.
    + simpl default.
      destruct (query_members_returns self id (dss_name row) st1)
        as (st2 & -> & Hw2).
      destruct (members_frame self id (dss_name row)) as [f|e]; simpl default.
      * destruct (IH (df ++ f) st2) as (st' & -> & Hw). exists st'.
        rewrite <- app_assoc. split; [done|].
        eapply only_warnings_trans; [done|].
        by eapply only_warnings_trans.
      * destruct (IH (df ++ []) st2) as (st' & -> & Hw). exists st'.
        rewrite app_nil_r. split; [done|].
        eapply only_warnings_trans; [done|].
        by eapply only_warnings_trans.
    + simpl. destruct (IH df st1) as (st' & -> & Hw). exists st'.
      split; [done|]. by eapply only_warnings_trans.
  - simpl. destruct (IH df st1) as (st' & -> & Hw). exists st'.
    split; [done|]. by eapply only_warnings_trans.
Qed.

(** The phases before the last one: either they end the run with the
    exception of [preflight], or they hand the comparison table to the loop
    of phase 4. In both cases only WARNING records were logged. *)
Lemma phases_preflight self st :
  ∃ st', only_warnings st st'
    ∧ phases self st
      = match preflight self (dss_groups st) with
        | Some e => (Raised e, st')
        | None =>
            for_each (reconcile self (local_groups_of self (dss_groups st)))
                     (user_comparison_of self st) st'
        end.
Proof.
  unfold phases, preflight, validate_groups_df. unfold_M.
  case_bool_decide; [|exists st; split; [apply only_warnings_refl|done]].
  case_bool_decide; [|exists st; split; [apply only_warnings_refl|done]].
  unfold client.list_users, client.list_groups. simpl.
  case_bool_decide; [exists st; split; [apply only_warnings_refl|done]|].
  unfold set_session_headers. unfold_M.
  destruct (context_error (session self)) as [msg|];
    [exists st; split; [apply only_warnings_refl|done]|].
  case_bool_decide; [|exists st; split; [apply only_warnings_refl|done]].
  destruct (token_error (session self) (auth_method self)) as [msg|];
    [exists st; split; [apply only_warnings_refl|done]|].
  destruct (query_graph_returns self (rows (groups_df self)) [] st)
    as (st' & -> & Hw).
  exists st'. split; [done|]. simpl app.
  fold (directory_members self). unfold aggregate. unfold_M.
  case_bool_decide; [done|].
  destruct Hw as [(Hu & _) _].
  unfold user_comparison_of, aad_users_of, dss_users_of, local_groups_of.
  by rewrite <- Hu.
Qed.

(** When nothing ends the run early, phase 4 starts in the state left by the
    queries of phase 2. *)
Lemma phases_reach_phase_4 self st :
  preflight self (dss_groups st) = None →
  only_warnings st (state_after_queries self st)
  ∧ phases self st
    = for_each (reconcile self (local_groups_of self (dss_groups st)))
               (user_comparison_of self st) (state_after_queries self st).
Proof.
  unfold phases, preflight, validate_groups_df, state_after_queries. unfold_M.
  case_bool_decide; [|done]. case_bool_decide; [|done].
  unfold client.list_users, client.list_groups. simpl.
  case_bool_decide; [done|].
  unfold set_session_headers. unfold_M.
  destruct (context_error (session self)) as [msg|]; [done|].
  case_bool_decide; [|done].
  destruct (token_error (session self) (auth_method self)) as [msg|]; [done|].
  destruct (query_graph_returns self (rows (groups_df self)) [] st)
    as (st' & -> & Hw).
  simpl app. fold (directory_members self). unfold aggregate. unfold_M.
  case_bool_decide; [done|]. intros _. split; [done|]. simpl.
  destruct Hw as [(Hu & _) _].
  unfold user_comparison_of, aad_users_of, dss_users_of, local_groups_of.
  by rewrite <- Hu.
Qed.

(** The simulate flag plays no part before phase 4. *)
Lemma query_graph_with_simulate flag self rows group_members_df st :
  query_graph (with_simulate flag self) rows group_members_df st
  = query_graph self rows group_members_df st.
Proof.
  revert group_members_df st.
  induction rows as [|row rest IH]; intros df st; [done|].
  cbn [query_graph]. unfold_M.
  change (query_group (with_simulate flag self) (aad_name row) st)
    with (query_group self (aad_name row) st).
  destruct (query_group self (aad_name row) st) as [[group_id|e] st1]; [|done].
  destruct (truthy group_id); [|apply IH].
  change (query_members (with_simulate flag self)
            (default EmptyString group_id) (dss_name row) st1)
    with (query_members self (default EmptyString group_id) (dss_name row)
            st1).
  destruct (query_members self _ _ st1) as [[group_members|e] st2]; [|done].
  apply IH.
Qed.

Lemma state_after_queries_with_simulate flag self st :
  state_after_queries (with_simulate flag self) st
  = state_after_queries self st.
Proof.
  unfold state_after_queries. simpl. by rewrite query_graph_with_simulate.
Qed.

(* ================================================================== *)
(** * The comparison table *)

Lemma elem_of_dss_users_of us d :
  d ∈ dss_users_of us ↔ us !! login d = Some (definition d).
Proof.
  unfold dss_users_of. rewrite list_elem_of_fmap. split.
  - intros ([l u] & -> & Hin). by apply elem_of_map_to_list in Hin.
  - intros Hd. exists (login d, definition d). split; [by destruct d|].
    by apply elem_of_map_to_list.
Qed.

Lemma elem_of_merge_outer aad_users dss_users row :
  row ∈ merge_outer aad_users dss_users ↔
  match row with
  | left_only a =>
      a ∈ aad_users ∧ ∀ d, d ∈ dss_users → dss_key d ≠ aad_key a
  | right_only d =>
      d ∈ dss_users ∧ ∀ a, a ∈ aad_users → aad_key a ≠ dss_key d
  | both a d => a ∈ aad_users ∧ d ∈ dss_users ∧ dss_key d = aad_key a
  end.
Proof.
  unfold merge_outer. rewrite elem_of_app, list_elem_of_bind, list_elem_of_fmap.
  split.
  - intros [(a & Hrow & Ha)|(d & -> & Hd)].
    + destruct (filter _ dss_users) as [|d0 ds] eqn:Hf.
      * apply list_elem_of_singleton in Hrow as ->. split; [done|].
        intros d Hd Hk.
        assert (d ∈ filter (λ d, dss_key d = aad_key a) dss_users) as Hin
          by by apply list_elem_of_filter.
        rewrite Hf in Hin. by apply elem_of_nil in Hin.
      * apply list_elem_of_fmap in Hrow as (d & -> & Hd).
        rewrite <- Hf in Hd. apply list_elem_of_filter in Hd as [Hk Hd].
        done.
    + apply list_elem_of_filter in Hd as [Hk Hd]. split; [done|].
      intros a Ha Heq. apply Hk. apply list_elem_of_fmap. by exists a.
  - destruct row as [a|d|a d].
    + intros [Ha Hno]. left. exists a. split; [|done].
      destruct (filter _ dss_users) as [|d0 ds] eqn:Hf; [by left|].
      assert (d0 ∈ filter (λ d, dss_key d = aad_key a) dss_users) as Hin
        by (rewrite Hf; left).
      apply list_elem_of_filter in Hin as [Hk Hd]. by destruct (Hno d0).
    + intros [Hd Hno]. right. exists d. split; [done|].
      apply list_elem_of_filter. split; [|done].
      intros (a & Hk & Ha)%list_elem_of_fmap. by apply (Hno a).
    + intros (Ha & Hd & Hk). left. exists a. split; [|done].
      assert (d ∈ filter (λ d, dss_key d = aad_key a) dss_users) as Hin
        by by apply list_elem_of_filter.
      destruct (filter _ dss_users) as [|d0 ds] eqn:Hf.
      * by apply elem_of_nil in Hin.
      * apply list_elem_of_fmap. by exists d.
Qed.

Lemma merge_outer_row_of_base aad_users us row :
  row ∈ merge_outer aad_users (dss_users_of us) → row_of_base us row.
Proof.
  rewrite elem_of_merge_outer. destruct row as [a|d|a d]; simpl; [done|..].
  - intros [Hd _]. by apply elem_of_dss_users_of.
  - intros (_ & Hd & Hk). split; [|done]. by apply elem_of_dss_users_of.
Qed.

(* ================================================================== *)
(** * The DSS calls of the mutators *)

Lemma user_create_users self user_id display_name email groups user_license
    st r st' :
  user_create self user_id display_name email groups user_license st
  = (r, st') →
  (users st' = users st
   ∧ (r = Returned tt → user_license = "NONE" ∨ flag_simulate self = true))
  ∨ (users st !! user_id = None
     ∧ users st'
       = <[user_id := created display_name email groups user_license]>
           (users st)
     ∧ user_license ≠ "NONE" ∧ flag_simulate self = false).
Proof.
  unfold user_create. case_bool_decide as Hlic.
  { intros [= <- <-]. left. split; [done|]. by left. }
  destruct (flag_simulate self) eqn:Hsim.
  { intros [= <- <-]. left. split; [done|]. by right. }
  unfold_M. unfold client.create_user, client.get_definition,
    client.set_definition, add_log. simpl.
  destruct (users st !! user_id) as [d|] eqn:Hd.
  { intros [= <- <-]. left. split; [done|]. intros [=]. }
  simpl. rewrite lookup_insert_eq. simpl. rewrite lookup_insert_eq.
  intros [= <- <-]. right. simpl. split; [done|]. split; [|done].
  by rewrite insert_insert_eq.
Qed.

Lemma user_update_users self user_id groups user_license st r st' :
  user_update self user_id groups user_license st = (r, st') →
  (users st' = users st ∧ (r = Returned tt → flag_simulate self = true))
  ∨ (∃ d, users st !! user_id = Some d
          ∧ users st'
            = <[user_id := set_userProfile user_license (set_groups groups d)]>
                (users st)
          ∧ flag_simulate self = false).
Proof.
  unfold user_update. destruct (flag_simulate self) eqn:Hsim.
  { intros [= <- <-]. by left. }
  unfold_M. unfold client.get_definition, client.set_definition, add_log.
  simpl.
  destruct (users st !! user_id) as [d|] eqn:Hd; simpl.
  - rewrite Hd. intros [= <- <-]. right. by exists d.
  - intros [= <- <-]. left. split; [done|]. intros [=].
Qed.

Lemma user_delete_users self user_id reason st r st' :
  user_delete self user_id reason st = (r, st') →
  (users st' = users st ∧ (r = Returned tt → flag_simulate self = true))
  ∨ (is_Some (users st !! user_id)
     ∧ users st' = delete user_id (users st)
     ∧ flag_simulate self = false).
Proof.
  unfold user_delete. destruct (flag_simulate self) eqn:Hsim.
  { intros [= <- <-]. by left. }
  unfold_M. unfold client.delete, add_log. simpl.
  destruct (users st !! user_id) as [d|] eqn:Hd; simpl.
  - intros [= <- <-]. right. by eauto.
  - intros [= <- <-]. left. split; [done|]. intros [=].
Qed.

(* ================================================================== *)
(** * Accounts of other identity mechanisms *)

Lemma reconcile_foreign_kept self local_groups us row st r st' :
  row_of_base us row →
  foreign_kept us (users st) →
  reconcile self local_groups row st = (r, st') →
  foreign_kept us (users st').
Proof.
  intros Hrow Hkept Hrun. destruct row as [a|d|a d]; simpl in *.
  - apply user_create_users in Hrun as [[-> _]|(Hnone & -> & _)]; [done|].
    intros l d Hl Hd. rewrite lookup_insert_ne; [by apply Hkept|].
    intros <-. specialize (Hkept _ _ Hl Hd). congruence.
  - case_bool_decide as Hown.
    + apply user_delete_users in Hrun as [[-> _]|(_ & -> & _)]; [done|].
      intros l d' Hl Hd. rewrite lookup_delete_ne; [by apply Hkept|].
      intros <-. rewrite Hrow in Hl. by simplify_eq.
    + unfold_M. by simplify_eq.
  - destruct Hrow as [Hbase Hkey].
    assert (aad_login a = login d) as Hlogin by (by injection Hkey).
    rewrite Hlogin in Hrun.
    case_bool_decide as Hown.
    { rewrite add_log_logged in Hrun. by simplify_eq. }
    case_bool_decide as Hlic.
    + apply user_delete_users in Hrun as [[-> _]|(_ & -> & _)]; [done|].
      intros l d' Hl Hd. rewrite lookup_delete_ne; [by apply Hkept|].
      intros <-. rewrite Hbase in Hl. by simplify_eq.
    + destruct (_ || _).
      * apply user_update_users in Hrun as [[-> _]|(d0 & _ & -> & _)]; [done|].
        intros l d' Hl Hd. rewrite lookup_insert_ne; [by apply Hkept|].
        intros <-. rewrite Hbase in Hl. by simplify_eq.
      * unfold_M. by simplify_eq.
Qed.

Lemma for_each_foreign_kept self local_groups us table st r st' :
  (∀ row, row ∈ table → row_of_base us row) →
  foreign_kept us (users st) →
  for_each (reconcile self local_groups) table st = (r, st') →
  foreign_kept us (users st').
Proof.
  revert st. induction table as [|row table IH]; intros st Hrows Hkept; simpl.
  { unfold_M. by intros [= <- <-]. }
  unfold_M.
  destruct (reconcile self local_groups row st) as [[[]|e] st1] eqn:Hrow.
  - apply IH.
    + intros row' Hin. apply Hrows. by right.
    + eapply reconcile_foreign_kept; [|done..]. apply Hrows. by left.
  - intros [= <- <-].
    eapply reconcile_foreign_kept; [|done..]. apply Hrows. by left.
Qed.

(** The end of [run] leaves the user base and the requests of the phases. *)
Lemma run_after_phases self st r st1 :
  phases self st = (r, st1) →
  users (run self st).2 = users st1 ∧ requests (run self st).2 = requests st1.
Proof.
  intros Hph. unfold run. unfold_M. rewrite Hph.
  unfold save_log, create_resulttable.
  destruct r as [[]|e]; simpl;
    destruct (truthy (log_dataset self)); simpl; try done;
    by destruct (dataset_write_error self _).
Qed.

Lemma phases_foreign_kept self st r st1 :
  phases self st = (r, st1) → foreign_kept (users st) (users st1).
Proof.
  destruct (phases_preflight self st) as (st' & [(Hu & _) _] & ->).
  destruct (preflight self (dss_groups st)).
  - intros [= <- <-]. rewrite Hu. by intros l d.
  - apply for_each_foreign_kept.
    + intros row. apply merge_outer_row_of_base.
    + rewrite Hu. by intros l d.
Qed.

(** C5. An account whose source type is not LOCAL_NO_AUTH is never changed.
    The loop body does nothing at all for such an account that exists only
    in DSS; for one that exists on both sides it appends one WARNING record
    and nothing else; and after any run (simulated or not, completed or
    aborted) every such account of the user base is still there with the
    definition it had. *)
Theorem foreign_accounts_untouched (self : MyRunnable)
    (local_groups : list string) :
  (∀ d st, ¬ owned (definition d) →
     reconcile self local_groups (right_only d) st = (Returned tt, st))
  ∧ (∀ a d st, ¬ owned (definition d) →
       reconcile self local_groups (both a d) st
       = (Returned tt,
          logged self
            ("User " +:+ aad_login a +:+ " has DSS user type "
             +:+ sourceType (definition d)
             +:+ ", while LOCAL_NO_AUTH was expected") "WARNING" st))
  ∧ (∀ st, foreign_kept (users st) (users (run self st).2)).
Proof.
  split; [|split].
  - intros d st Hd. simpl. by rewrite bool_decide_eq_false_2.
  - intros a d st Hd. simpl. by rewrite bool_decide_eq_true_2.
  - intros st. destruct (phases self st) as [r st1] eqn:Hph.
    destruct (run_after_phases _ _ _ _ Hph) as [-> _].
    by eapply phases_foreign_kept.
Qed.

Lemma foreign_accounts_untouched_witness :
  users (run (macro false None one_row_mapping graph_carol) with_carol).2
    !! "c_x.com" = Some carol.
Proof.
  apply (proj2 (proj2 (foreign_accounts_untouched
                         (macro false None one_row_mapping graph_carol) []))
           with_carol "c_x.com" carol).
  - reflexivity.
  - unfold owned. discriminate.
Defined.

(* ================================================================== *)
(** * The Account Mutator *)

(** C10. Without simulate, [user_update] on an existing account stores the
    fetched definition with its [groups] and [userProfile] replaced by the
    arguments: display name, e-mail, source type and the remaining fields
    are those of the fetched definition, the account keeps its login, and no
    other account changes. One PUT request is sent. *)
Theorem user_update_frame (self : MyRunnable) (user_id : string)
    (new_groups : list string) (user_license : string) (st : State)
    (d : UserDef) :
  flag_simulate self = false →
  users st !! user_id = Some d →
  ∃ d' st',
    user_update self user_id new_groups user_license st = (Returned tt, st')
    ∧ users st' !! user_id = Some d'
    ∧ groups d' = new_groups ∧ userProfile d' = user_license
    ∧ displayName d' = displayName d ∧ email d' = email d
    ∧ sourceType d' = sourceType d ∧ other d' = other d
    ∧ (∀ l, l ≠ user_id → users st' !! l = users st !! l)
    ∧ requests st' = requests st ++ [PUT_user user_id d'].
Proof.
  intros Hsim Hd.
  exists (set_userProfile user_license (set_groups new_groups d)).
  eexists. unfold user_update. rewrite Hsim. unfold_M.
  unfold client.get_definition, client.set_definition, add_log. simpl.
  rewrite Hd. simpl. rewrite Hd. split; [done|]. simpl.
  rewrite lookup_insert_eq. repeat split; try done.
  intros l Hl. by rewrite lookup_insert_ne.
Qed.

Lemma user_update_frame_witness :
  ∃ d' st',
    user_update (macro false None one_row_mapping graph_no_group) "a_x.com"
                ["eng"; "contractors"] "DATA_ANALYST" scenario_C
    = (Returned tt, st')
    ∧ users st' !! "a_x.com" = Some d'
    ∧ groups d' = ["eng"; "contractors"] ∧ userProfile d' = "DATA_ANALYST"
    ∧ displayName d' = "Alice" ∧ email d' = "a@x.com"
    ∧ sourceType d' = "LOCAL_NO_AUTH".
Proof.
  destruct (user_update_frame (macro false None one_row_mapping graph_no_group)
              "a_x.com" ["eng"; "contractors"] "DATA_ANALYST" scenario_C a_x
              eq_refl eq_refl)
    as (d' & st' & Hrun & Hd' & Hg & Hp & Hn & He & Hs & _).
  exists d', st'. by repeat split.
Defined.

(** C7. With the simulate flag, [user_create], [user_update] and
    [user_delete] return after appending exactly one INFO record, the
    announcement of the decision, and touch nothing else. Carrying out any
    list of decisions then leaves the user base, the requests and the
    datasets as they were, and logs the announcements of the decisions in
    order; an instance without the flag that carries the same decisions out
    to the end logs, in the same number and order, the reports of the same
    decisions. A whole simulated run sends no request and changes no
    account, and when it reaches phase 4 its log and the log of the same run
    without the flag, if that one completes, announce and report the
    decisions of one and the same comparison table. *)
Theorem simulate_flag_purity (self : MyRunnable) :
  flag_simulate self = true →
  (∀ user_id display_name email groups user_license st,
     ∃ m, announce true (do_create user_id display_name email groups
                                   user_license) = Some m
          ∧ user_create self user_id display_name email groups user_license st
            = (Returned tt, logged self m "INFO" st))
  ∧ (∀ user_id groups user_license st,
       ∃ m, announce true (do_update user_id groups user_license) = Some m
            ∧ user_update self user_id groups user_license st
              = (Returned tt, logged self m "INFO" st))
  ∧ (∀ user_id reason st,
       ∃ m, announce true (do_delete user_id reason) = Some m
            ∧ user_delete self user_id reason st
              = (Returned tt, logged self m "INFO" st))
  ∧ (∀ decs st,
       ∃ st', for_each (perform self) decs st = (Returned tt, st')
              ∧ dss_unchanged st st'
              ∧ message <$> log_df st'
                = (message <$> log_df st) ++ omap (announce true) decs
              ∧ length (omap (announce true) decs)
                = length (omap (announce false) decs)
              ∧ ∀ self' st'',
                  flag_simulate self' = false →
                  for_each (perform self') decs st = (Returned tt, st'') →
                  message <$> log_df st''
                  = (message <$> log_df st) ++ omap (announce false) decs)
  ∧ (∀ st, users (run self st).2 = users st
           ∧ requests (run self st).2 = requests st)
  ∧ (∀ st,
       preflight self (dss_groups st) = None →
       (∃ st_sim,
          phases self st = (Returned tt, st_sim)
          ∧ message <$> log_df st_sim
            = (message <$> log_df (state_after_queries self st))
              ++ omap (announce true)
                   (decision (local_groups_of self (dss_groups st))
                      <$> user_comparison_of self st))
       ∧ ∀ st_real,
           phases (with_simulate false self) st = (Returned tt, st_real) →
           message <$> log_df st_real
           = (message <$> log_df (state_after_queries self st))
             ++ omap (announce false)
                  (decision (local_groups_of self (dss_groups st))
                     <$> user_comparison_of self st)).
Proof.
  intros Hsim. split; [|split; [|split; [|split; [|split]]]].
  - intros. eexists. split; [done|].
    exact (perform_simulate self (do_create _ _ _ _ _) st Hsim).
  - intros. eexists. split; [done|].
    exact (perform_simulate self (do_update _ _ _) st Hsim).
  - intros. eexists. split; [done|].
    exact (perform_simulate self (do_delete _ _) st Hsim).
  - intros decs st.
    destruct (for_each_simulate self decs st Hsim) as (st' & Hrun & Hd & Hl).
    exists st'. split; [done|]. split; [done|]. split; [done|].
    split; [apply announce_count|].
    intros self' st'' Hreal Hrun'. by eapply for_each_real_log.
  - intros st. destruct (phases self st) as [r st1] eqn:Hph.
    destruct (run_after_phases _ _ _ _ Hph) as [-> ->].
    destruct (phases_preflight self st) as (st' & [(Hu & Hr & _) _] & Hph').
    rewrite Hph' in Hph. destruct (preflight self (dss_groups st)).
    { by simplify_eq. }
    rewrite for_each_reconcile in Hph.
    destruct (for_each_simulate self
                (decision (local_groups_of self (dss_groups st))
                   <$> user_comparison_of self st) st' Hsim)
      as (st2 & Hrun & (Hu2 & Hr2 & _) & _).
    rewrite Hrun in Hph. simplify_eq. split; congruence.
  - intros st Hpre. split.
    + destruct (phases_reach_phase_4 self st Hpre) as [_ ->].
      rewrite for_each_reconcile.
      destruct (for_each_simulate self
                  (decision (local_groups_of self (dss_groups st))
                     <$> user_comparison_of self st)
                  (state_after_queries self st) Hsim)
        as (st2 & Hrun & _ & Hlog).
      by exists st2.
    + intros st_real Hrun.
      destruct (phases_reach_phase_4 (with_simulate false self) st Hpre)
        as [_ Hph].
      rewrite Hph, state_after_queries_with_simulate in Hrun.
      rewrite for_each_reconcile in Hrun.
      by apply (for_each_real_log (with_simulate false self)) in Hrun.
Qed.

Lemma simulate_flag_purity_witness :
  users (run (macro true None two_row_mapping graph_team) before_sync).2
  = users before_sync
  ∧ requests (run (macro true None two_row_mapping graph_team) before_sync).2
    = [].
Proof.
  exact (proj1 (proj2 (proj2 (proj2 (proj2
    (simulate_flag_purity (macro true None two_row_mapping graph_team)
       eq_refl))))) before_sync).
Defined.

(* ================================================================== *)
(** * The run-level exception handler *)

(** C8, as the code has it. When the phases raise, the exception is caught
    and appended to the log as an ERROR record with its message; and unless
    saving the log to a configured log dataset raises in turn, [run] returns
    the result table of the log, whose last record is that ERROR record. *)
Theorem run_reports_failure (self : MyRunnable) (st st1 : State) (e : string) :
  phases self st = (Raised e, st1) →
  truthy (log_dataset self) = false
  ∨ dataset_write_error self (default EmptyString (log_dataset self)) = None →
  ∃ table st2,
    run self st = (Returned table, st2)
    ∧ log_df st2 = log_df st1 ++ [log_record self st1 e "ERROR"]
    ∧ records table
      = (λ log_row, [date log_row; user log_row; type log_row;
                     message log_row]) <$> log_df st2
    ∧ last (records table)
      = Some [clock self (length (log_df st1)); run_user self; "ERROR"; e].
Proof.
  intros Hph Hsave. unfold run. unfold_M. rewrite Hph.
  rewrite add_log_logged. unfold save_log, create_resulttable.
  destruct Hsave as [Hno|Hok].
  - rewrite Hno. simpl. do 2 eexists. split; [done|]. simpl.
    split; [done|]. split; [done|]. by rewrite fmap_app; simpl; rewrite last_snoc.
  - destruct (truthy (log_dataset self)); [rewrite Hok|]; simpl.
    + do 2 eexists. split; [done|]. simpl.
      split; [done|]. split; [done|]. by rewrite fmap_app; simpl; rewrite last_snoc.
    + do 2 eexists. split; [done|]. simpl.
      split; [done|]. split; [done|]. by rewrite fmap_app; simpl; rewrite last_snoc.
Qed.

Lemma run_reports_failure_witness :
  ∃ table st2,
    run (macro false None bad_mapping graph_no_group) (dss ∅ []) 
    = (Returned table, st2)
    ∧ last (records table)
      = Some ["2020-01-01 00:00:00.000000"; "admin"; "ERROR";
              "The groups dataset is not correctly configured. It should contain these columns: ['dss_name', 'aad_name', 'license']"].
Proof.
  destruct (run_reports_failure (macro false None bad_mapping graph_no_group)
              (dss ∅ []) (dss ∅ []) _ eq_refl (or_introl eq_refl))
    as (table & st2 & Hrun & _ & _ & Hlast).
  by exists table, st2.
Defined.

(** C8, as stated, fails: the phases raise, and so does saving the log in
    the [finally] clause; [run] then raises and returns no table. *)
Lemma run_raises_when_log_cannot_be_saved :
  (phases (macro false (Some "log") bad_mapping graph_no_group) (dss ∅ [])).1
  = Raised
      "The groups dataset is not correctly configured. It should contain these columns: ['dss_name', 'aad_name', 'license']"
  ∧ (run (macro false (Some "log") bad_mapping graph_no_group) (dss ∅ [])).1
    = Raised "Dataset cannot be written".
Proof. split; reflexivity. Qed.

(* ================================================================== *)
(** * The update test *)

Lemma list_diff_nil l1 l2 : list_diff l1 l2 = [] ↔ ∀ x, x ∈ l1 → x ∈ l2.
Proof.
  unfold list_diff. rewrite elements_empty_iff. split.
  - intros Hempty x Hx. destruct (decide (x ∈ l2)) as [|Hn]; [done|].
    exfalso. apply (not_elem_of_empty (C:=gset string) x). rewrite <- Hempty.
    apply elem_of_difference. by rewrite !elem_of_list_to_set.
  - intros Hsub x. split; [|by intros []%not_elem_of_empty].
    rewrite elem_of_difference, !elem_of_list_to_set. intros [Hx Hn].
    by destruct Hn; apply Hsub.
Qed.

Lemma list_to_set_all_groups local_groups a d :
  list_to_set (all_groups_of local_groups a d)
  = effective_groups local_groups a d.
Proof.
  unfold all_groups_of, effective_groups.
  by rewrite list_to_set_app_L, list_to_set_elements_L.
Qed.

(** The test looks one way only: the account is left alone as soon as its
    current groups contain the directory groups. *)
Lemma in_sync_iff local_groups a d :
  in_sync local_groups a d ↔
  (∀ g, g ∈ groups_aad a → g ∈ groups d)
  ∧ get_license (license_aad a) = userProfile d.
Proof.
  unfold in_sync. rewrite list_diff_nil. unfold all_groups_of.
  split; intros [Hg Hl]; (split; [|done]).
  - intros g Hin. apply Hg. apply elem_of_app. by left.
  - intros g [Hin|Hin]%elem_of_app; [by apply Hg|].
    apply elem_of_elements, elem_of_intersection in Hin as [Hin _].
    by apply elem_of_list_to_set in Hin.
Qed.

(** What the loop body does for an owned, licensed account of both sides:
    an update to the effective groups and the resolved license, unless the
    account is [in_sync]. *)
Lemma reconcile_both_owned self local_groups a d st :
  owned (definition d) → get_license (license_aad a) ≠ "NONE" →
  reconcile self local_groups (both a d) st
  = if bool_decide (in_sync local_groups a (definition d))
    then (Returned tt, st)
    else user_update self (aad_login a)
                     (all_groups_of local_groups a (definition d))
                     (get_license (license_aad a)) st.
Proof.
  intros Hown Hlic. rewrite reconcile_perform. simpl.
  rewrite (bool_decide_eq_false_2 (¬ owned _)) by by intros [].
  rewrite (bool_decide_eq_false_2 _ Hlic).
  by case_bool_decide.
Qed.

(** The order of the group lists does not matter to the test. *)
Lemma in_sync_permutation local_groups a a' d d' :
  groups_aad a ≡ₚ groups_aad a' → license_aad a = license_aad a' →
  groups d ≡ₚ groups d' → userProfile d = userProfile d' →
  in_sync local_groups a d ↔ in_sync local_groups a' d'.
Proof.
  intros Ha Hl Hd Hp. rewrite !in_sync_iff, Hl, Hp.
  by setoid_rewrite Ha; setoid_rewrite Hd.
Qed.

(** C1 at a failing input. Alice is in the directory group of "eng" only,
    and her DSS account still lists "eng" and "ops", both groups of the
    configuration. Her effective groups differ from her current groups, her
    license is the one of her profile, and yet the loop body does nothing:
    the run sends no request and logs nothing. *)
Theorem left_directory_group_is_kept :
  effective_groups [] alice_aad (definition alice_dss)
    ≠ list_to_set (groups (definition alice_dss))
  ∧ owned (definition alice_dss)
  ∧ get_license (license_aad alice_aad) = userProfile (definition alice_dss)
  ∧ get_license (license_aad alice_aad) ≠ "NONE"
  ∧ (∀ self st,
       reconcile self [] (both alice_aad alice_dss) st = (Returned tt, st))
  ∧ local_groups_of (macro false None two_row_mapping graph_after_leaving)
                    (dss_groups after_leaving) = []
  ∧ alice_aad ∈ aad_users_of
                  (macro false None two_row_mapping graph_after_leaving)
  ∧ run (macro false None two_row_mapping graph_after_leaving) after_leaving
    = (Returned
         {| table_columns :=
              [("date", "Date", "STRING"); ("user", "User", "STRING");
               ("type", "Type", "STRING"); ("message", "Message", "STRING")];
            records := [] |},
       after_leaving).
Proof.
  split; [|split; [|split; [|split; [|split; [|split; [|split]]]]]].
  - intros Heq.
    assert ("ops" ∈ effective_groups [] alice_aad (definition alice_dss))
      as Hin by (rewrite Heq; set_solver).
    unfold effective_groups in Hin. set_solver.
  - reflexivity.
  - reflexivity.
  - discriminate.
  - intros self st. rewrite reconcile_both_owned; [|done|discriminate].
    rewrite bool_decide_eq_true_2; [done|].
    apply in_sync_iff. split; [|done].
    intros g Hg%list_elem_of_singleton. subst g. left.
  - reflexivity.
  - vm_compute. left.
  - vm_compute. reflexivity.
Qed.

(* ================================================================== *)
(** * Groups that cannot be queried *)

(** When no group contributes a member, the phases end with an exception
    before the comparison, after logging nothing but WARNING records. *)
Lemma no_member_no_reconciliation self st :
  directory_members self = [] →
  ∃ e st', phases self st = (Raised e, st') ∧ only_warnings st st'.
Proof.
  intros Hnone. destruct (phases_preflight self st) as (st' & Hw & ->).
  assert (is_Some (preflight self (dss_groups st))) as [e ->]; [|by eauto].
  unfold preflight.
  rewrite (bool_decide_eq_true_2 (directory_members self = [])) by done.
  repeat case_match; by eauto.
Qed.

(** C4 at a failing input. The configuration has one group and its lookup
    finds nothing: a WARNING is logged, the group contributes no member and
    the loop of phase 2 completes, but phase 3 then raises on the empty
    member frame and the run ends with an ERROR record, before phase 4. *)
Theorem failed_group_lookup_ends_run :
  directory_members (macro false None one_row_mapping graph_no_group) = []
  ∧ (query_graph (macro false None one_row_mapping graph_no_group)
       (rows one_row_mapping) [] scenario_C).1 = Returned []
  ∧ (phases (macro false None one_row_mapping graph_no_group) scenario_C).1
    = Raised "'login'"
  ∧ (λ e, (type e, message e))
      <$> log_df (run (macro false None one_row_mapping graph_no_group)
                      scenario_C).2
    = [("WARNING", "No return value from Graph for group Eng-AAD");
       ("ERROR", "'login'")].
Proof. repeat split. Qed.

(* ================================================================== *)
(** * Accounts without a directory user *)

Lemma reason_no_license local_groups row user_id :
  decision local_groups row = do_delete user_id "No license." ↔
  ∃ a d, row = both a d ∧ user_id = aad_login a ∧ owned (definition d)
         ∧ get_license (license_aad a) = "NONE".
Proof.
  split.
  - destruct row as [a|d|a d]; simpl; [done|case_bool_decide; intros [=]|].
    case_bool_decide as Hown; [done|].
    case_bool_decide as Hlic; [|by case_bool_decide].
    intros [= <-]. by exists a, d.
  - intros (a & d & -> & -> & Hown & Hlic). simpl.
    rewrite (bool_decide_eq_false_2 (¬ owned _)) by by intros [].
    by rewrite bool_decide_eq_true_2.
Qed.

(** C9, as the code has it. Whatever table phase 3 yields, as long as it has
    no row with the key of the local user "a_x.com" of scenario C, that user
    is a local-only row of the comparison, and the loop body handles it by
    [user_delete] with the reason "Not found in AAD."; without simulate this
    deletes the account. The reason "No license." belongs to the accounts
    of both sides whose directory licenses resolve to "NONE". *)
Theorem local_only_user_is_not_found (self : MyRunnable)
    (aad_users : list AadUser) (local_groups : list string) (st : State) :
  (∀ a, a ∈ aad_users → aad_key a ≠ ("a_x.com", "Alice", "a@x.com")) →
  a_x_row ∈ merge_outer aad_users (dss_users_of (users scenario_C))
  ∧ decision local_groups a_x_row = do_delete "a_x.com" "Not found in AAD."
  ∧ reconcile self local_groups a_x_row st
    = user_delete self "a_x.com" "Not found in AAD." st
  ∧ (flag_simulate self = false → users st !! "a_x.com" = Some a_x →
     ∃ st', reconcile self local_groups a_x_row st = (Returned tt, st')
            ∧ users st' = delete "a_x.com" (users st)
            ∧ requests st' = requests st ++ [DELETE_user "a_x.com"]).
Proof.
  intros Hno. split; [|split; [|split]].
  - apply elem_of_merge_outer. simpl. split; [|done].
    by apply elem_of_dss_users_of.
  - reflexivity.
  - reflexivity.
  - intros Hsim Hin. simpl. unfold user_delete. rewrite Hsim.
    unfold_M. unfold client.delete, add_log. simpl. rewrite Hin.
    by eexists.
Qed.

Lemma local_only_user_is_not_found_witness :
  a_x_row ∈ merge_outer [bob_aad] (dss_users_of (users scenario_C))
  ∧ aad_users_of (macro false None two_row_mapping graph_eng_gone) = [bob_aad]
  ∧ requests (run (macro false None two_row_mapping graph_eng_gone)
                  eng_and_ops).2 = [DELETE_user "a_x.com"]
  ∧ message <$> log_df (run (macro false None two_row_mapping graph_eng_gone)
                            eng_and_ops).2
    = ["No return value from Graph for group Eng-AAD";
       "User " +:+ quoted "a_x.com"
       +:+ " has been deleted. Reason: Not found in AAD."].
Proof.
  split; [|split; [|split]].
  - apply (local_only_user_is_not_found
             (macro false None two_row_mapping graph_eng_gone) [bob_aad] []
             eng_and_ops).
    intros a Ha%list_elem_of_singleton. subst a. discriminate.
  - vm_compute. reflexivity.
  - vm_compute. reflexivity.
  - vm_compute. reflexivity.
Defined.

(** C9, as stated, fails. In scenario C the run logs the WARNING of the
    failed lookup and the ERROR of phase 3; it sends no request, deletes no
    account and gives no reason. The same holds when the group is found and
    has no member. *)
Lemma scenario_C_deletes_nothing :
  (run (macro false None one_row_mapping graph_no_group) scenario_C).1
  = Returned
      {| table_columns :=
           [("date", "Date", "STRING"); ("user", "User", "STRING");
            ("type", "Type", "STRING"); ("message", "Message", "STRING")];
         records :=
           [["2020-01-01 00:00:00.000000"; "admin"; "WARNING";
             "No return value from Graph for group Eng-AAD"];
            ["2020-01-01 00:00:00.000000"; "admin"; "ERROR"; "'login'"]] |}
  ∧ requests (run (macro false None one_row_mapping graph_no_group) scenario_C).2
    = []
  ∧ users (run (macro false None one_row_mapping graph_no_group) scenario_C).2
    = users scenario_C
  ∧ requests (run (macro false None one_row_mapping graph_no_member)
                  scenario_C).2 = []
  ∧ (last (log_df (run (macro false None one_row_mapping graph_no_member)
                       scenario_C).2)) ≫= (Some ∘ message) = Some "'login'".
Proof. repeat split. Qed.

(* ================================================================== *)
(** * Idempotence of the reconciliation *)

Lemma in_sync_created local_groups a d :
  groups d = groups_aad a → userProfile d = get_license (license_aad a) →
  in_sync local_groups a d.
Proof. intros Hg Hp. apply in_sync_iff. by rewrite Hg, Hp. Qed.

Lemma in_sync_updated local_groups a d :
  in_sync local_groups a
    (set_userProfile (get_license (license_aad a))
       (set_groups (all_groups_of local_groups a d) d)).
Proof.
  apply in_sync_iff. simpl. split; [|done].
  intros g Hg. apply elem_of_app. by left.
Qed.

Lemma NoDup_fmap_eq {A B} (f : A → B) (l : list A) x y :
  NoDup (f <$> l) → x ∈ l → y ∈ l → f x = f y → x = y.
Proof.
  induction l as [|z l IH]; simpl; [by intros _ ?%elem_of_nil|].
  rewrite NoDup_cons, !elem_of_cons. intros [Hz Hnd] [->|Hx] [->|Hy] Heq.
  - done.
  - destruct Hz. rewrite Heq. by apply list_elem_of_fmap_2.
  - destruct Hz. rewrite <- Heq. by apply list_elem_of_fmap_2.
  - by apply IH.
Qed.

Lemma dss_user_eta d : {| login := login d; definition := definition d |} = d.
Proof. by destruct d. Qed.

Lemma NoDup_dss_users_of us : NoDup (dss_users_of us).
Proof.
  unfold dss_users_of. apply NoDup_fmap_2_strong; [|apply NoDup_map_to_list].
  intros [l1 d1] [l2 d2] _ _ [=]. by simplify_eq.
Qed.

Lemma merge_outer_rows_of a dss_users row :
  row ∈ match filter (λ d, dss_key d = aad_key a) dss_users with
        | [] => [left_only a]
        | matches => both a <$> matches
        end →
  row_aad row = Some a.
Proof.
  destruct (filter _ dss_users) as [|d0 ds].
  - by intros ->%list_elem_of_singleton.
  - by intros (d & -> & _)%list_elem_of_fmap.
Qed.

Lemma NoDup_merge_outer aad_users dss_users :
  NoDup aad_users → NoDup dss_users → NoDup (merge_outer aad_users dss_users).
Proof.
  intros Ha Hd. unfold merge_outer. apply NoDup_app. split; [|split].
  - apply NoDup_bind; [| |done].
    + intros a1 a2 row _ _ H1%merge_outer_rows_of H2%merge_outer_rows_of.
      congruence.
    + intros a _. destruct (filter _ dss_users) as [|d0 ds] eqn:Hf.
      * apply NoDup_singleton.
      * rewrite <- Hf. apply NoDup_fmap_2; [by intros ?? [=]|].
        by apply NoDup_filter.
  - intros row (a & Hrow%merge_outer_rows_of & _)%list_elem_of_bind
      (d & -> & _)%list_elem_of_fmap. done.
  - apply NoDup_fmap_2; [by intros ?? [=]|]. by apply NoDup_filter.
Qed.

Section idempotence.
Context (self : MyRunnable) (local_groups : list string).
Context (aad_users : list AadUser) (base : gmap string UserDef).
Context (Hreal : flag_simulate self = false).
Context (Hkeys : NoDup (aad_key <$> aad_users)).

Local Abbreviation table := (merge_outer aad_users (dss_users_of base)).

Lemma table_has_aad a :
  a ∈ aad_users → ∃ row, row ∈ table ∧ row_aad row = Some a.
Proof.
  intros Ha.
  destruct (filter (λ d, dss_key d = aad_key a) (dss_users_of base))
    as [|d ds] eqn:Hf.
  - exists (left_only a). split; [|done]. apply elem_of_merge_outer.
    split; [done|]. intros d Hd Hk.
    assert (d ∈ filter (λ d, dss_key d = aad_key a) (dss_users_of base))
      as Hin by by apply list_elem_of_filter.
    rewrite Hf in Hin. by apply elem_of_nil in Hin.
  - assert (d ∈ filter (λ d, dss_key d = aad_key a) (dss_users_of base))
      as [Hk Hd]%list_elem_of_filter by (rewrite Hf; left).
    exists (both a d). split; [|done]. by apply elem_of_merge_outer.
Qed.

Lemma table_has_dss l d :
  base !! l = Some d →
  ∃ row, row ∈ table ∧ row_dss row = Some {| login := l; definition := d |}.
Proof.
  intros Hd. set (u := {| login := l; definition := d |}).
  assert (u ∈ dss_users_of base) as Hu by by apply elem_of_dss_users_of.
  destruct (decide (dss_key u ∈ aad_key <$> aad_users)) as [Hin|Hout].
  - apply list_elem_of_fmap in Hin as (a & Hk & Ha).
    exists (both a u). split; [|done]. by apply elem_of_merge_outer.
  - exists (right_only u). split; [|done]. apply elem_of_merge_outer.
    split; [done|]. intros a Ha Hk. apply Hout.
    apply list_elem_of_fmap. by exists a.
Qed.

(** Two rows of the table about the same DSS login are the same row. *)
Lemma table_dss_login_inj row1 row2 d1 d2 :
  row1 ∈ table → row2 ∈ table →
  row_dss row1 = Some d1 → row_dss row2 = Some d2 →
  login d1 = login d2 → row1 = row2.
Proof.
  intros H1 H2 Hd1 Hd2 Hl.
  assert (d1 = d2) as <-.
  { pose proof (merge_outer_row_of_base _ _ _ H1) as Hb1.
    pose proof (merge_outer_row_of_base _ _ _ H2) as Hb2.
    assert (base !! login d1 = Some (definition d1)) as E1
      by (destruct row1; simplify_eq/=; tauto).
    assert (base !! login d2 = Some (definition d2)) as E2
      by (destruct row2; simplify_eq/=; tauto).
    rewrite Hl, E2 in E1. destruct d1, d2; by simplify_eq/=. }
  apply elem_of_merge_outer in H1, H2.
  destruct row1 as [?|?|a1 ?], row2 as [?|?|a2 ?]; simplify_eq/=;
    try done.
  - destruct H1 as [_ Hno], H2 as (Ha & _ & Hk). by destruct (Hno a2).
  - destruct H2 as [_ Hno], H1 as (Ha & _ & Hk). by destruct (Hno a1).
  - destruct H1 as (Ha1 & _ & Hk1), H2 as (Ha2 & _ & Hk2).
    f_equal. eapply NoDup_fmap_eq; [done..|congruence].
Qed.

Lemma reconciled_but_start : reconciled_but local_groups aad_users table base.
Proof.
  split.
  - intros a Ha _ Hnone. destruct (table_has_aad a Ha) as (row & Hin & Hr).
    by destruct (Hnone row Hin).
  - intros l d Hd _. right. by apply table_has_dss.
  - intros row d Hin Hd.
    pose proof (merge_outer_row_of_base _ _ _ Hin) as Hb.
    destruct row; simplify_eq/=; tauto.
Qed.

Lemma aad_login_of_both a d : both a d ∈ table → aad_login a = login d.
Proof. intros (_ & _ & Hk)%elem_of_merge_outer. by injection Hk. Qed.

Lemma key_match_of_both a d :
  both a d ∈ table → key_match (login d) (definition d) a.
Proof. by intros (_ & _ & Hk)%elem_of_merge_outer. Qed.

(** A row that leaves the user base as it is. *)
Lemma reconciled_but_skip row todo us :
  reconciled_but local_groups aad_users (row :: todo) us →
  (∀ a, row_aad row = Some a → licensed a →
        ∃ d, us !! aad_login a = Some d ∧ key_match (aad_login a) d a) →
  (∀ d, row_dss row = Some d → owned (definition d) →
        ∃ a, a ∈ aad_users ∧ licensed a
             ∧ key_match (login d) (definition d) a
             ∧ in_sync local_groups a (definition d)) →
  reconciled_but local_groups aad_users todo us.
Proof.
  intros [I1 I2 I3] Haad Hdss. split.
  - intros a Ha Hlic Hnone.
    destruct (decide (row_aad row = Some a)) as [Hrow|Hrow]; [by apply Haad|].
    apply I1; [done..|]. by intros r [->|Hr]%elem_of_cons; [|apply Hnone].
  - intros l d Hd Hown. destruct (I2 l d Hd Hown) as [?|(r & Hr & Hrd)];
      [by left|].
    apply elem_of_cons in Hr as [->|Hr]; [|right; by exists r].
    left. by apply (Hdss _ Hrd).
  - intros r d Hr. apply I3. by right.
Qed.

(** A directory-only user who gets an account. *)
Lemma reconciled_but_create a todo us :
  a ∈ aad_users → licensed a → us !! aad_login a = None →
  reconciled_but local_groups aad_users (left_only a :: todo) us →
  reconciled_but local_groups aad_users todo
    (<[aad_login a := created (aad_displayName a) (aad_email a)
                              (groups_aad a) (get_license (license_aad a))]>
       us).
Proof.
  intros Ha Hlic Hfree [I1 I2 I3]. split.
  - intros a' Ha' Hlic' Hnone.
    destruct (decide (a' = a)) as [->|Hne].
    { eexists. by rewrite lookup_insert_eq. }
    destruct (I1 a' Ha' Hlic') as (d & Hd & Hk).
    { intros r [->|Hr]%elem_of_cons; [simpl; congruence|by apply Hnone]. }
    exists d. split; [|done]. rewrite lookup_insert_ne; [done|].
    intros Heq. rewrite <- Heq in Hd. congruence.
  - intros l d. destruct (decide (l = aad_login a)) as [->|Hne].
    + rewrite lookup_insert_eq. intros [= <-] _. left. exists a.
      repeat split; try done. by apply in_sync_created.
    + rewrite lookup_insert_ne by done. intros Hd Hown.
      destruct (I2 l d Hd Hown) as [?|(r & Hr & Hrd)]; [by left|].
      apply elem_of_cons in Hr as [->|Hr]; [done|]. right. by exists r.
  - intros r d Hr Hrd. rewrite lookup_insert_ne; [apply (I3 r); [by right|done]|].
    intros Heq. rewrite Heq, (I3 r d) in Hfree; [done|by right|done].
Qed.

(** An account that is deleted: a local-only account, or the account of a
    directory user without a license. *)
Lemma reconciled_but_delete row d todo us :
  row ∈ table → (∀ r, r ∈ todo → r ∈ table) → row ∉ todo →
  row_dss row = Some d → (∀ a, row_aad row = Some a → ¬ licensed a) →
  reconciled_but local_groups aad_users (row :: todo) us →
  reconciled_but local_groups aad_users todo (delete (login d) us).
Proof.
  intros Hrow Htodo Hfresh Hrd Hnolic [I1 I2 I3].
  assert (us !! login d = Some (definition d)) as Hd
    by (apply (I3 row); [left|done]).
  split.
  - intros a' Ha' Hlic' Hnone.
    destruct (I1 a' Ha' Hlic') as (d1 & Hd1 & Hk).
    { intros r [->|Hr]%elem_of_cons; [|by apply Hnone].
      intros Hra. by apply (Hnolic a'). }
    exists d1. split; [|done]. rewrite lookup_delete_ne; [done|].
    intros Heq. rewrite <- Heq, Hd in Hd1. injection Hd1 as <-.
    unfold key_match in Hk. rewrite <- Heq in Hk.
    apply elem_of_merge_outer in Hrow. destruct row as [?|?|a ?];
      simplify_eq/=.
    + destruct Hrow as [_ Hno]. by apply (Hno a').
    + destruct Hrow as (Ha & _ & Hkd). apply (Hnolic a); [done|].
      assert (a' = a) as <-; [|done].
      eapply NoDup_fmap_eq; [done..|]. by rewrite Hk, <- Hkd.
  - intros l d1 [Hne Hd1]%lookup_delete_Some Hown.
    destruct (I2 l d1 Hd1 Hown) as [?|(r & Hr & Hrd')]; [by left|].
    apply elem_of_cons in Hr as [->|Hr]; [|right; by exists r].
    by simplify_eq/=.
  - intros r d' Hr Hrd'. rewrite lookup_delete_ne; [apply (I3 r); [by right|done]|].
    intros Heq. apply Hfresh.
    by rewrite (table_dss_login_inj row r d d' Hrow (Htodo r Hr) Hrd Hrd' Heq).
Qed.

(** An owned account of both sides that is updated. *)
Lemma reconciled_but_update a d todo us :
  both a d ∈ table → (∀ r, r ∈ todo → r ∈ table) → both a d ∉ todo →
  licensed a →
  reconciled_but local_groups aad_users (both a d :: todo) us →
  reconciled_but local_groups aad_users todo
    (<[login d := set_userProfile (get_license (license_aad a))
                    (set_groups
                       (all_groups_of local_groups a (definition d))
                       (definition d))]> us).
Proof.
  intros Hrow Htodo Hfresh Hlic [I1 I2 I3].
  assert (us !! login d = Some (definition d)) as Hd
    by (apply (I3 (both a d)); [left|done]).
  pose proof (key_match_of_both a d Hrow) as Hkd.
  pose proof (aad_login_of_both a d Hrow) as Hlogin.
  assert (a ∈ aad_users) as Ha
    by by apply elem_of_merge_outer in Hrow as [? _].
  split.
  - intros a' Ha' Hlic' Hnone.
    destruct (decide (a' = a)) as [->|Hne].
    { eexists. rewrite Hlogin, lookup_insert_eq. split; [done|].
      exact Hkd. }
    destruct (I1 a' Ha' Hlic') as (d1 & Hd1 & Hk).
    { intros r [->|Hr]%elem_of_cons; [simpl; congruence|by apply Hnone]. }
    exists d1. split; [|done]. rewrite lookup_insert_ne; [done|].
    intros Heq. rewrite <- Heq, Hd in Hd1. injection Hd1 as <-.
    apply Hne. eapply NoDup_fmap_eq; [done..|].
    unfold key_match in *. rewrite Hk, Hkd. by rewrite Heq.
  - intros l d1. destruct (decide (l = login d)) as [->|Hne].
    + rewrite lookup_insert_eq. intros [= <-] _. left. exists a.
      repeat split; try done. apply in_sync_updated.
    + rewrite lookup_insert_ne by done. intros Hd1 Hown.
      destruct (I2 l d1 Hd1 Hown) as [?|(r & Hr & Hrd)]; [by left|].
      apply elem_of_cons in Hr as [->|Hr]; [|right; by exists r].
      by simplify_eq/=.
  - intros r d' Hr Hrd'. rewrite lookup_insert_ne; [apply (I3 r); [by right|done]|].
    intros Heq. apply Hfresh.
    by rewrite (table_dss_login_inj (both a d) r d d' Hrow (Htodo r Hr)
                  eq_refl Hrd' Heq).
Qed.

(** One turn of the loop of phase 4 that raises nothing. *)
Lemma reconcile_step row todo st st' :
  row ∈ table → (∀ r, r ∈ todo → r ∈ table) → row ∉ todo →
  reconciled_but local_groups aad_users (row :: todo) (users st) →
  reconcile self local_groups row st = (Returned tt, st') →
  reconciled_but local_groups aad_users todo (users st').
Proof.
  intros Hrow Htodo Hfresh Hinv Hrun. destruct row as [a|d|a d].
  - simpl in Hrun.
    apply user_create_users in Hrun as [[-> Hwhy]|(Hfree & -> & Hlic & _)].
    + destruct (Hwhy eq_refl) as [Hnone|Hsim]; [|congruence].
      eapply reconciled_but_skip; [done|..].
      * intros a0 [= <-] Hl. by destruct Hl.
      * by intros d [=].
    + apply reconciled_but_create; try done.
      by apply elem_of_merge_outer in Hrow as [? _].
  - simpl in Hrun. case_bool_decide as Hown.
    + apply user_delete_users in Hrun as [[_ Hwhy]|(_ & -> & _)].
      { specialize (Hwhy eq_refl). congruence. }
      by apply (reconciled_but_delete (right_only d) d).
    + unfold_M. simplify_eq. eapply reconciled_but_skip; [done|..].
      * by intros a [=].
      * by intros d0 [= <-] Ho.
  - pose proof (aad_login_of_both a d Hrow) as Hlogin.
    pose proof (key_match_of_both a d Hrow) as Hkd.
    assert (users st !! login d = Some (definition d)) as Hd
      by (apply (todo_are_intact _ _ _ _ Hinv (both a d)); [left|done]).
    assert (a ∈ aad_users) as Ha
      by by apply elem_of_merge_outer in Hrow as [? _].
    simpl in Hrun. rewrite Hlogin in Hrun.
    fold (all_groups_of local_groups a (definition d)) in Hrun.
    rewrite in_sync_test in Hrun.
    case_bool_decide as Hown.
    { rewrite add_log_logged in Hrun. simplify_eq.
      eapply reconciled_but_skip; [done|..].
      - intros a0 [= <-] _. exists (definition d).
        by rewrite Hlogin.
      - by intros d0 [= <-] Ho. }
    case_bool_decide as Hlic.
    { apply user_delete_users in Hrun as [[_ Hwhy]|(_ & -> & _)].
      { specialize (Hwhy eq_refl). congruence. }
      apply (reconciled_but_delete (both a d) d); try done.
      intros a0 [= <-] Hl. by destruct Hl. }
    case_bool_decide as Hsync; simpl in Hrun.
    + unfold_M. simplify_eq. eapply reconciled_but_skip; [done|..].
      * intros a0 [= <-] _. exists (definition d). by rewrite Hlogin.
      * intros d0 [= <-] _. by exists a.
    + apply user_update_users in Hrun as [[_ Hwhy]|(d0 & Hd0 & -> & _)].
      { specialize (Hwhy eq_refl). congruence. }
      rewrite Hd in Hd0. injection Hd0 as <-.
      by apply reconciled_but_update.
Qed.

Lemma for_each_reconciled todo st st' :
  NoDup todo → (∀ r, r ∈ todo → r ∈ table) →
  reconciled_but local_groups aad_users todo (users st) →
  for_each (reconcile self local_groups) todo st = (Returned tt, st') →
  reconciled_but local_groups aad_users [] (users st').
Proof.
  revert st. induction todo as [|row todo IH]; intros st Hnd Htodo Hinv.
  { simpl. unfold_M. by intros [= <-]. }
  apply NoDup_cons in Hnd as [Hfresh Hnd]. simpl. unfold_M.
  destruct (reconcile self local_groups row st) as [[[]|e] st1] eqn:Hrow;
    [|done].
  apply IH; [done| |].
  - intros r Hr. apply Htodo. by right.
  - eapply reconcile_step; [| |done..].
    + apply Htodo. by left.
    + intros r Hr. apply Htodo. by right.
Qed.

(** After a loop that raised nothing, the comparison of the same directory
    table with the new user base holds no decision that mutates. *)
Lemma phase_4_settles st st' :
  users st = base →
  for_each (reconcile self local_groups) table st = (Returned tt, st') →
  ∀ row, row ∈ merge_outer aad_users (dss_users_of (users st')) →
         mutates (decision local_groups row) = false.
Proof.
  intros Hbase Hrun.
  assert (reconciled_but local_groups aad_users [] (users st'))
    as [I1 I2 _].
  { eapply for_each_reconciled;
      [| |by rewrite Hbase; apply reconciled_but_start|done].
    - apply NoDup_merge_outer; [by eapply NoDup_fmap_1|].
      apply NoDup_dss_users_of.
    - done. }
  assert (∀ l d, users st' !! l = Some d → owned d →
            ∃ a, a ∈ aad_users ∧ licensed a ∧ key_match l d a
                 ∧ in_sync local_groups a d) as Hsettled.
  { intros l d Hd Hown. destruct (I2 l d Hd Hown) as [?|(r & Hr & _)];
      [done|]. by apply elem_of_nil in Hr. }
  intros row Hrow. apply elem_of_merge_outer in Hrow.
  destruct row as [a|d|a d]; simpl.
  - destruct Hrow as [Ha Hno].
    destruct (decide (get_license (license_aad a) = "NONE")) as [->|Hlic];
      [done|].
    destruct (I1 a Ha Hlic) as (d & Hd & Hk);
      [by intros r ?%elem_of_nil|].
    destruct (Hno {| login := aad_login a; definition := d |}); [|done].
    by apply elem_of_dss_users_of.
  - destruct Hrow as [Hd Hno]. case_bool_decide as Hown; [|done].
    apply elem_of_dss_users_of in Hd.
    destruct (Hsettled _ _ Hd Hown) as (a & Ha & _ & Hk & _).
    by destruct (Hno a Ha).
  - destruct Hrow as (Ha & Hd & Hk). case_bool_decide as Hown; [done|].
    apply elem_of_dss_users_of in Hd.
    destruct (Hsettled _ _ Hd Hown) as (a' & Ha' & Hlic & Hk' & Hsync).
    assert (a' = a) as ->
      by (eapply NoDup_fmap_eq; [done..|]; by rewrite Hk', <- Hk).
    rewrite (bool_decide_eq_false_2 _ Hlic).
    by rewrite (bool_decide_eq_true_2 _ Hsync).
Qed.

End idempotence.

(** Decisions that do not mutate are carried out without a request. *)
Lemma for_each_quiet self decs st :
  Forall (λ dec, mutates dec = false) decs →
  ∃ st', for_each (perform self) decs st = (Returned tt, st')
         ∧ dss_unchanged st st'.
Proof.
  revert st. induction decs as [|dec decs IH]; intros st Hq.
  { exists st. split; [done|]. apply dss_unchanged_refl. }
  apply Forall_cons in Hq as [Hdec Hq]. simpl. unfold_M.
  assert (∃ st1, perform self dec st = (Returned tt, st1)
                 ∧ dss_unchanged st st1) as (st1 & -> & Hd1).
  { destruct dec; simpl in *; try done.
    - apply negb_false_iff, bool_decide_eq_true in Hdec as ->.
      unfold user_create. rewrite bool_decide_eq_true_2 by done.
      eexists. split; [done|]. apply dss_unchanged_logged.
    - eexists. split; [done|]. apply dss_unchanged_logged.
    - eexists. split; [done|]. apply dss_unchanged_refl. }
  destruct (IH st1 Hq) as (st' & -> & Hd). exists st'. split; [done|].
  by eapply dss_unchanged_trans.
Qed.

(** The rows of [aad_users] have the sorted distinct keys of the frame. *)
Lemma groupby_unique_keys df :
  aad_key <$> groupby_unique df
  = merge_sort (λ k1 k2, Is_true (key_leb k1 k2))
      (remove_dups (member_key <$> df)).
Proof.
  unfold groupby_unique.
  generalize (merge_sort (λ k1 k2, Is_true (key_leb k1 k2))
                (remove_dups (member_key <$> df))).
  intros keys. induction keys as [|[[??]?] keys IH]; [done|].
  rewrite !fmap_cons. f_equal. exact IH.
Qed.

Lemma NoDup_aad_users_of self : NoDup (aad_key <$> aad_users_of self).
Proof.
  unfold aad_users_of. rewrite groupby_unique_keys, merge_sort_Permutation.
  apply NoDup_remove_dups.
Qed.

Lemma perform_dss_groups self dec st r st' :
  perform self dec st = (r, st') → dss_groups st' = dss_groups st.
Proof.
  destruct dec; simpl;
    unfold user_create, user_update, user_delete, client.create_user,
      client.get_definition, client.set_definition, client.delete, add_log;
    unfold_M; simpl;
    repeat (case_match; simplify_eq/=; try done); by intros [= <- <-].
Qed.

Lemma for_each_dss_groups self decs st r st' :
  for_each (perform self) decs st = (r, st') → dss_groups st' = dss_groups st.
Proof.
  revert st. induction decs as [|dec decs IH]; intros st; simpl.
  { unfold_M. by intros [= <- <-]. }
  unfold_M. destruct (perform self dec st) as [[[]|e] st1] eqn:Hdec.
  - intros Hrest. rewrite (IH _ Hrest). by eapply perform_dss_groups.
  - intros [= <- <-]. by eapply perform_dss_groups.
Qed.

Lemma phases_dss_groups self st r st' :
  phases self st = (r, st') → dss_groups st' = dss_groups st.
Proof.
  destruct (phases_preflight self st) as (st0 & [(_ & _ & Hg & _) _] & ->).
  destruct (preflight self (dss_groups st)).
  - by intros [= <- <-].
  - rewrite for_each_reconcile. intros Hrun.
    by rewrite (for_each_dss_groups _ _ _ _ _ Hrun).
Qed.

(** C6. When a run without simulate has completed its phases without an
    exception, so that all its decisions were carried out, a second run of
    the same instance (same configuration, same directory) on the resulting
    user base decides no creation, update or deletion for any row of its
    comparison; its phases complete, send no request and leave the user base
    as it is. *)
Theorem reconciliation_idempotent (self : MyRunnable) (st st1 st2 : State) :
  flag_simulate self = false →
  phases self st = (Returned tt, st1) →
  users st2 = users st1 → dss_groups st2 = dss_groups st1 →
  Forall (λ row,
            mutates (decision (local_groups_of self (dss_groups st2)) row)
            = false)
         (user_comparison_of self st2)
  ∧ (∃ st3, phases self st2 = (Returned tt, st3)
            ∧ users st3 = users st2 ∧ requests st3 = requests st2)
  ∧ users (run self st2).2 = users st2
  ∧ requests (run self st2).2 = requests st2.
Proof.
  intros Hreal Hph Hu2 Hg2.
  pose proof (phases_dss_groups _ _ _ _ Hph) as Hg1.
  destruct (phases_preflight self st) as (st' & [(Hu & _) _] & Hph1).
  rewrite Hph in Hph1.
  destruct (preflight self (dss_groups st)) as [e|] eqn:Hpre; [done|].
  assert (Forall (λ row,
             mutates (decision (local_groups_of self (dss_groups st2)) row)
             = false) (user_comparison_of self st2)) as Hquiet.
  { apply Forall_forall. intros row Hrow.
    unfold user_comparison_of in Hrow. rewrite Hu2 in Hrow.
    rewrite Hg2, Hg1.
    by eapply (phase_4_settles self _ (aad_users_of self) (users st) Hreal
                 (NoDup_aad_users_of self) st' st1). }
  split; [done|].
  destruct (phases_preflight self st2)
    as (st2' & [(Hu' & Hr' & _) _] & Hph2).
  rewrite Hg2, Hg1, Hpre in Hph2. rewrite for_each_reconcile in Hph2.
  assert (user_comparison_of self st2' = user_comparison_of self st2) as Htab
    by (unfold user_comparison_of; by rewrite Hu').
  destruct (for_each_quiet self
              (decision (local_groups_of self (dss_groups st)) <$>
               user_comparison_of self st2) st2')
    as (st3 & Hrun & (Hu3 & Hr3 & _)).
  { apply Forall_fmap. rewrite Hg2, Hg1 in Hquiet.
    eapply Forall_impl; [exact Hquiet|]. by intros row. }
  rewrite Hrun in Hph2.
  assert (users st3 = users st2 ∧ requests st3 = requests st2) as [Hu4 Hr4]
    by (split; congruence).
  split; [by exists st3|].
  destruct (run_after_phases _ _ _ _ Hph2) as [-> ->]. done.
Qed.

Lemma reconciliation_idempotent_witness :
  requests (run (macro false None two_row_mapping graph_team) before_sync).2
  = [POST_user "a_x.com" "Alice" ["eng"] EmptyString "LOCAL_NO_AUTH" "READER";
     PUT_user "a_x.com"
       (account "Alice" "a@x.com" ["eng"] "LOCAL_NO_AUTH" "READER");
     PUT_user "b_x.com"
       (account "Bob" "b@x.com" ["eng"; "ops"; "contractors"]
                "LOCAL_NO_AUTH" "READER");
     DELETE_user "d_x.com"]
  ∧ requests
      (run (macro false None two_row_mapping graph_team)
           (run (macro false None two_row_mapping graph_team)
                before_sync).2).2
    = requests
        (run (macro false None two_row_mapping graph_team) before_sync).2.
Proof.
  split; [vm_compute; reflexivity|].
  apply (reconciliation_idempotent
           (macro false None two_row_mapping graph_team) before_sync
           (phases (macro false None two_row_mapping graph_team)
                   before_sync).2
           (run (macro false None two_row_mapping graph_team) before_sync).2);
    vm_compute; reflexivity.
Defined.

(* ================================================================== *)
(** * Further properties of the basic methods *)

Lemma replace_char_length old new s :
  String.length (replace_char old new s) = String.length s.
Proof. induction s as [|c s IH]; simpl; [done|]. by rewrite IH. Qed.

Lemma has_char_replace_char old new s :
  old ≠ new → has_char old (replace_char old new s) = false.
Proof.
  intros Hne. induction s as [|c s IH]; simpl; [done|]. rewrite IH.
  destruct (Ascii.eqb_spec c old) as [->|Hc].
  - destruct (Ascii.eqb_spec new old) as [->|]; done.
  - by destruct (Ascii.eqb_spec c old).
Qed.

(** X1. [get_user_id] keeps the length of the address, leaves no ["@"] in
    the login, and maps a login to itself. *)
Theorem get_user_id_shape (email : string) :
  String.length (get_user_id email) = String.length email
  ∧ has_char "@"%char (get_user_id email) = false
  ∧ get_user_id (get_user_id email) = get_user_id email.
Proof.
  unfold get_user_id. split; [apply replace_char_length|].
  assert (has_char "@"%char (replace_char "@"%char "_"%char email) = false)
    as Hno by by apply has_char_replace_char.
  split; [done|]. by apply replace_char_absent.
Qed.

(** X2. [list_diff] returns, without duplicates, exactly the elements of
    the first list that are not in the second. *)
Theorem list_diff_spec (list1 list2 : list string) :
  NoDup (list_diff list1 list2)
  ∧ ∀ x, x ∈ list_diff list1 list2 ↔ x ∈ list1 ∧ x ∉ list2.
Proof.
  unfold list_diff. split; [apply NoDup_elements|].
  intros x. by rewrite elem_of_elements, elem_of_difference,
    !elem_of_list_to_set.
Qed.

Lemma bool_decide_elem_of_app (x : string) l1 l2 :
  bool_decide (x ∈ l1 ++ l2) = bool_decide (x ∈ l1) || bool_decide (x ∈ l2).
Proof.
  rewrite <- bool_decide_or. apply bool_decide_ext. apply elem_of_app.
Qed.

(** X3. The license of two lists of labels taken together is the more
    potent of their two licenses. *)
Theorem get_license_app (l1 l2 : list string) :
  get_license (l1 ++ l2) = get_license [get_license l1; get_license l2].
Proof.
  unfold get_license at 1 3 4, possible_licenses. cbn [first_license_in].
  rewrite !bool_decide_elem_of_app.
  destruct (bool_decide ("DATA_SCIENTIST" ∈ l1));
    [by repeat destruct (bool_decide (_ ∈ l2))|].
  destruct (bool_decide ("DATA_SCIENTIST" ∈ l2));
    [by repeat destruct (bool_decide (_ ∈ l1))|].
  destruct (bool_decide ("DATA_ANALYST" ∈ l1));
    [by repeat destruct (bool_decide (_ ∈ l2))|].
  destruct (bool_decide ("DATA_ANALYST" ∈ l2));
    [by repeat destruct (bool_decide (_ ∈ l1))|].
  destruct (bool_decide ("READER" ∈ l1));
    [by repeat destruct (bool_decide (_ ∈ l2))|].
  destruct (bool_decide ("READER" ∈ l2));
    [by repeat destruct (bool_decide (_ ∈ l1))|].
  destruct (bool_decide ("EXPLORER" ∈ l1));
    [by repeat destruct (bool_decide (_ ∈ l2))|].
  destruct (bool_decide ("EXPLORER" ∈ l2));
    [by repeat destruct (bool_decide (_ ∈ l1))|].
  by repeat destruct (bool_decide (_ ∈ _)).
Qed.

(** X4. The license depends on which labels occur in the list only, not on
    their order or on how often they occur. *)
Theorem get_license_same_labels (l1 l2 : list string) :
  (∀ x, x ∈ l1 ↔ x ∈ l2) → get_license l1 = get_license l2.
Proof. intros H. apply first_license_in_ext. intros x _. apply H. Qed.

Lemma get_license_same_labels_witness :
  get_license ["READER"; "NONE"; "READER"; "DATA_ANALYST"]
  = get_license ["DATA_ANALYST"; "NONE"; "READER"].
Proof.
  apply get_license_same_labels. intros x.
  rewrite !elem_of_cons, !elem_of_nil. tauto.
Defined.

Lemma elem_of_unique x l : x ∈ unique l ↔ x ∈ l.
Proof.
  induction l as [|y l IH]; simpl; [done|].
  rewrite !elem_of_cons, list_elem_of_filter, IH.
  destruct (decide (x = y)); tauto.
Qed.

Lemma NoDup_unique l : NoDup (unique l).
Proof.
  induction l as [|y l IH]; simpl; [constructor|].
  constructor; [|by apply NoDup_filter].
  rewrite list_elem_of_filter. by intros [Hne _].
Qed.

(** X5. [validate_groups_df] touches nothing, and it accepts the groups
    dataset exactly when the columns are the three mandatory ones in their
    order and every license of the dataset is a possible license. *)
Theorem validate_groups_df_accepts (self : MyRunnable) (st : State) :
  (validate_groups_df self st).2 = st
  ∧ ((validate_groups_df self st).1 = Returned tt ↔
     columns (groups_df self) = mandatory_columns
     ∧ Forall (λ row, license row ∈ possible_licenses)
              (rows (groups_df self))).
Proof.
  unfold validate_groups_df.
  case_bool_decide as Hcol; [|split; [done|]; split; [done|tauto]].
  case_bool_decide as Himp.
  - split; [done|]. split; [|done]. intros _. split; [done|].
    apply Forall_forall. intros row Hrow.
    pose proof (proj1 (list_diff_nil _ _) Himp (license row)) as H.
    apply H. apply elem_of_unique. by apply list_elem_of_fmap_2.
  - split; [done|]. split; [done|]. intros [_ Hall]. destruct Himp.
    apply list_diff_nil. intros x [row [-> Hrow]]%elem_of_unique%list_elem_of_fmap.
    by apply (proj1 (Forall_forall _ _) Hall).
Qed.

(* ================================================================== *)
(** * Credentials and construction *)

Lemma get_required_credentials_cases auth_method :
  get_required_credentials auth_method
  ∈ [ ["graph_tenant_id"; "graph_app_id"; "graph_app_secret"];
      ["graph_tenant_id"; "graph_app_id"; "graph_app_cert";
       "graph_app_cert_thumb"];
      ["graph_tenant_id"; "graph_app_id"; "graph_user"; "graph_user_pwd"];
      ["graph_tenant_id"; "graph_app_id"] ].
Proof.
  unfold get_required_credentials. rewrite !elem_of_cons.
  repeat case_bool_decide; simpl; tauto.
Qed.

Lemma get_required_credentials_labelled auth_method :
  Forall (λ key, is_Some (credentials_labels !! key))
         (get_required_credentials auth_method).
Proof.
  pose proof (get_required_credentials_cases auth_method) as H.
  rewrite !elem_of_cons, elem_of_nil in H.
  destruct H as [->|[->|[->|[->|[]]]]]; repeat constructor; by eexists.
Qed.

Lemma credentials_read_required auth_method :
  credentials_read auth_method ⊆ get_required_credentials auth_method.
Proof.
  unfold credentials_read, get_required_credentials.
  repeat case_bool_decide; simpl; intros x; rewrite !elem_of_cons;
    tauto.
Qed.

(** X6. Whatever the authentication method, the required credentials start
    with the tenant and the application id, hold no key twice, all have a
    label in [credentials_labels], and include every credential that
    [set_session_headers] reads for that method. *)
Theorem required_credentials_cover (auth_method : Value) :
  ["graph_tenant_id"; "graph_app_id"]
    `prefix_of` get_required_credentials auth_method
  ∧ NoDup (get_required_credentials auth_method)
  ∧ Forall (λ key, is_Some (credentials_labels !! key))
           (get_required_credentials auth_method)
  ∧ credentials_read auth_method ⊆ get_required_credentials auth_method.
Proof.
  split_and!.
  - unfold get_required_credentials. repeat case_bool_decide; by eexists.
  - pose proof (get_required_credentials_cases auth_method) as H.
    rewrite !elem_of_cons, elem_of_nil in H.
    destruct H as [->|[->|[->|[->|[]]]]];
      by apply (bool_decide_unpack _).
  - apply get_required_credentials_labelled.
  - apply credentials_read_required.
Qed.

Section read_credentials.
Context (source : string) (secrets_dict : gmap string Value).

Local Abbreviation found :=
  (λ key : string,
     credentials_labels !! key
     ≫= λ label,
          secrets_dict
          !! (if bool_decide (source = "user") then label else key)).

Lemma read_credentials_labelled keys c m :
  Forall (λ key, is_Some (credentials_labels !! key)) keys →
  read_credentials source secrets_dict keys c m
  = Returned
      (foldl (λ c key, from_option (λ v, <[key := v]> c) c (found key)) c keys,
       m ++ omap (credentials_labels !!.)
              (filter (λ key, truth (default VNone (found key)) = false)
                      keys)).
Proof.
  intros Hl. revert c m.
  induction Hl as [|key keys [label Hlabel] _ IH]; intros c m.
  { simpl. by rewrite app_nil_r. }
  cbn [read_credentials foldl]. rewrite Hlabel. simpl.
  destruct (secrets_dict !! _) as [v|] eqn:Hv; simpl; rewrite IH; f_equal;
    f_equal.
  - destruct (truth v) eqn:Htruth.
    + rewrite filter_cons_False; [done|].
      rewrite Hlabel. simpl. rewrite Hv. simpl. by rewrite Htruth.
    + rewrite filter_cons_True.
      2:{ rewrite Hlabel. simpl. by rewrite Hv. }
      simpl. rewrite Hlabel. by rewrite <- app_assoc.
  - rewrite filter_cons_True.
    2:{ rewrite Hlabel. simpl. by rewrite Hv. }
    simpl. rewrite Hlabel. by rewrite <- app_assoc.
Qed.

Lemma lookup_foldl_found keys (c : gmap string Value) k :
  foldl (λ c key, from_option (λ v, <[key := v]> c) c (found key)) c keys !! k
  = if bool_decide (k ∈ keys) then from_option Some (c !! k) (found k)
    else c !! k.
Proof.
  revert c. induction keys as [|key keys IH]; intros c; [done|].
  cbn [foldl]. rewrite IH. destruct (decide (k = key)) as [->|Hne].
  - rewrite (bool_decide_eq_true_2 (key ∈ key :: keys)) by left.
    destruct (credentials_labels !! key ≫= _) as [v|] eqn:Hv; simpl.
    + rewrite lookup_insert_eq. by destruct (bool_decide (key ∈ keys)).
    + by destruct (bool_decide (key ∈ keys)).
  - assert ((from_option (λ v, <[key := v]> c) c (found key)) !! k = c !! k)
      as ->.
    { destruct (credentials_labels !! key ≫= _) as [v|]; simpl; [|done].
      by rewrite lookup_insert_ne. }
    apply (f_equal (λ b : bool, if b then _ else _)).
    apply bool_decide_ext. rewrite elem_of_cons. tauto.
Qed.

End read_credentials.

Lemma omap_labels_nil keys :
  Forall (λ key, is_Some (credentials_labels !! key)) keys →
  omap (credentials_labels !!.) keys = [] → keys = [].
Proof. intros Hl. destruct Hl as [|key keys [label Hlabel] _]; [done|]. simpl. by rewrite Hlabel. Qed.

Lemma get_credentials_labelled self source :
  Forall (λ key, is_Some (credentials_labels !! key))
         (required_credentials self) →
  get_credentials self source
  = if bool_decide (missing_keys self source = []) then
      Returned
        (foldl (λ c key,
                  from_option (λ v, <[key := v]> c) c
                              (credential_of self source key))
               ∅ (required_credentials self))
    else
      Raised (quoted ("Please specify these credentials: "
                      +:+ str_list (omap (credentials_labels !!.)
                                         (missing_keys self source)))).
Proof.
  intros Hl. unfold get_credentials.
  rewrite read_credentials_labelled by done. rewrite app_nil_l.
  change (filter _ (required_credentials self))
    with (missing_keys self source).
  change (foldl _ ∅ (required_credentials self))
    with (foldl (λ (c : gmap string Value) key,
                   from_option (λ v, <[key := v]> c) c
                               (credential_of self source key))
                ∅ (required_credentials self)).
  destruct (decide (missing_keys self source = [])) as [Hk|Hk].
  - by rewrite Hk.
  - rewrite (bool_decide_eq_false_2 _ Hk). rewrite bool_decide_eq_true_2; [done|].
    intros Ho. apply Hk. revert Ho. apply omap_labels_nil.
    apply Forall_forall. intros key [_ Hkey]%list_elem_of_filter.
    by apply (proj1 (Forall_forall _ _) Hl).
Qed.

Lemma lookup_credentials self source key :
  foldl (λ (c : gmap string Value) key,
           from_option (λ v, <[key := v]> c) c
                       (credential_of self source key))
        ∅ (required_credentials self) !! key
  = if bool_decide (key ∈ required_credentials self)
    then credential_of self source key else None.
Proof.
  unfold credential_of. rewrite lookup_foldl_found.
  rewrite lookup_empty. case_bool_decide; [|done].
  by destruct (credentials_labels !! key ≫= _).
Qed.

Lemma get_credentials_returned self source credentials :
  Forall (λ key, is_Some (credentials_labels !! key))
         (required_credentials self) →
  get_credentials self source = Returned credentials →
  missing_keys self source = []
  ∧ ∀ key, credentials !! key
           = if bool_decide (key ∈ required_credentials self)
             then credential_of self source key else None.
Proof.
  intros Hl. rewrite get_credentials_labelled by done.
  case_bool_decide as Hm; [|done]. intros [= <-]. split; [done|].
  apply lookup_credentials.
Qed.

(** X7. When every required key has a label, [get_credentials] returns
    exactly when no required credential is absent or false in the chosen
    source, and the dict that it returns holds the required keys, each with
    the value of the source, and no other key. *)
Theorem get_credentials_returns (self : Settings) (source : string)
    (credentials : gmap string Value) :
  Forall (λ key, is_Some (credentials_labels !! key))
         (required_credentials self) →
  get_credentials self source = Returned credentials ↔
  missing_keys self source = []
  ∧ ∀ key, credentials !! key
           = if bool_decide (key ∈ required_credentials self)
             then credential_of self source key else None.
Proof.
  intros Hl. split; [by apply get_credentials_returned|].
  intros [Hm Hc]. rewrite get_credentials_labelled by done.
  rewrite bool_decide_eq_true_2 by done. f_equal. apply map_eq.
  intros key. by rewrite lookup_credentials, Hc.
Qed.

Lemma get_credentials_returns_witness :
  missing_keys (settings_of app_token_config) "parameters" = [].
Proof.
  exact (proj1
           (proj1 (get_credentials_returns (settings_of app_token_config)
                     "parameters"
                     {[ "graph_tenant_id" := VStr "tenant";
                        "graph_app_id" := VStr "app";
                        "graph_app_secret" := VStr "secret" ]}
                     (get_required_credentials_labelled _))
                  eq_refl)).
Defined.

(** X8. When a required credential is absent or false in the chosen
    source, [get_credentials] raises the [KeyError] that lists the labels
    of all such credentials, in the order of the required keys. *)
Theorem get_credentials_reports_missing (self : Settings) (source : string) :
  Forall (λ key, is_Some (credentials_labels !! key))
         (required_credentials self) →
  missing_keys self source ≠ [] →
  get_credentials self source
  = Raised (quoted ("Please specify these credentials: "
                    +:+ str_list (omap (credentials_labels !!.)
                                       (missing_keys self source)))).
Proof.
  intros Hl Hm. rewrite get_credentials_labelled by done.
  by rewrite bool_decide_eq_false_2.
Qed.

Lemma get_credentials_reports_missing_witness :
  get_credentials (settings_of ∅) "user"
  = Raised (quoted
      "Please specify these credentials: ['Application ID', 'App secret']").
Proof.
  apply (get_credentials_reports_missing (settings_of ∅) "user").
  - apply get_required_credentials_labelled.
  - discriminate.
Defined.

(** X9. A macro that has been constructed has an empty log, the groups
    dataset that was selected, and, present and true among its
    credentials, every credential that [set_session_headers] reads for
    the configured authentication method; without a groups dataset the
    construction fails before DSS is asked for anything. *)
Theorem init_provides_credentials (dss : Platform)
    (config : gmap string Value) :
  (∀ inst,
     init dss config = Returned inst →
     i_log_df inst = []
     ∧ i_run_user inst = auth_identifier dss
     ∧ get_dataframe dss (default VNone (config !! "groups_dataset"))
       = Returned (i_groups_df inst)
     ∧ ∃ auth_method,
         config !! "auth_method" = Some auth_method
         ∧ i_required_credentials inst = get_required_credentials auth_method
         ∧ Forall (λ key, ∃ v, i_credentials inst !! key = Some v
                               ∧ truth v = true)
                  (credentials_read auth_method))
  ∧ (is_Some (config !! "flag_simulate") →
     truth (default VNone (config !! "groups_dataset")) = false →
     init dss config = Raised "No groups dataset has been selected.").
Proof.
  split.
  - intros inst. unfold init.
    destruct (config !! "flag_simulate") as [flag|]; [|done].
    destruct (truth (default VNone (config !! "groups_dataset"))); [|done].
    simpl. destruct (get_dataframe dss _) as [df|] eqn:Hdf; [|done].
    destruct (config !! "auth_method") as [auth_method|]; [|done].
    destruct (config !! "flag_user_credentials") as [flag_user|]; [|done].
    destruct (get_credentials _ _) as [credentials|] eqn:Hc; [|done].
    intros [= <-]. simpl. split_and!; try done.
    exists auth_method. split_and!; try done.
    apply get_credentials_returned in Hc as [Hm Hc];
      [|apply get_required_credentials_labelled].
    apply Forall_forall. intros key Hkey%credentials_read_required.
    rewrite Hc. simpl. rewrite bool_decide_eq_true_2 by done.
    match goal with
    | |- ∃ v, credential_of ?s ?src key = _ ∧ _ =>
        destruct (credential_of s src key) as [v|] eqn:Hv;
        assert (key ∉ missing_keys s src) as Hnot
          by (rewrite Hm; apply not_elem_of_nil)
    end.
    + exists v. split; [done|]. apply not_false_iff_true. intros Hf.
      apply Hnot. apply list_elem_of_filter. split; [|done].
      by rewrite Hv.
    + destruct Hnot. apply list_elem_of_filter. split; [|done].
      by rewrite Hv.
  - intros [flag Hflag] Hno. unfold init. by rewrite Hflag, Hno.
Qed.

Lemma init_provides_credentials_witness :
  ∃ inst, init platform app_token_config = Returned inst
          ∧ i_credentials inst !! "graph_app_secret" = Some (VStr "secret")
          ∧ init platform (delete "groups_dataset" app_token_config)
            = Raised "No groups dataset has been selected.".
Proof.
  eexists. split; [reflexivity|]. split; [reflexivity|].
  apply (init_provides_credentials platform
           (delete "groups_dataset" app_token_config)).
  - by eexists.
  - reflexivity.
Defined.

(* ================================================================== *)
(** * Phase 2: the member listings *)

Lemma fetch_pages_pages r :
  fetch_pages r
  = match failure_of r with
    | Some msg => Raised msg
    | None => Returned (concat (pages_of r))
    end.
Proof.
  induction r as [msg|value|value next_link IH]; simpl; [done|..].
  - by rewrite app_nil_r.
  - rewrite IH. by destruct (failure_of next_link).
Qed.

(** X10. [query_members] never raises and never touches DSS. When no page
    of the listing fails and the pages hold a member, it returns one row
    per record of all the pages, in their order, each with the DSS name of
    the group and the login made from the e-mail address. When a page
    fails, or when there is no member at all, the records read so far are
    dropped: it returns [None] after a single WARNING. *)
Theorem query_members_all_or_nothing (self : MyRunnable)
    (group_id group_name_dss : string) (st : State) :
  match failure_of (group_members (session self) group_id),
        concat (pages_of (group_members (session self) group_id)) with
  | None, r :: value =>
      query_members self group_id group_name_dss st
      = (Returned
           (Some ((λ r, {| m_displayName := r.1; m_email := r.2;
                           m_groups := group_name_dss;
                           m_login := get_user_id r.2 |}) <$> r :: value)),
         st)
  | None, [] =>
      query_members self group_id group_name_dss st
      = (Returned None,
         logged self
           ("Group " +:+ quoted group_name_dss
            +:+ " members cannot be retrieved from AAD: "
            +:+ "Length mismatch: Expected axis has 0 elements, new values have 2 elements")
           "WARNING" st)
  | Some e, _ =>
      query_members self group_id group_name_dss st
      = (Returned None,
         logged self
           ("Group " +:+ quoted group_name_dss
            +:+ " members cannot be retrieved from AAD: " +:+ e)
           "WARNING" st)
  end.
Proof.
  unfold query_members, members_frame. rewrite fetch_pages_pages.
  destruct (failure_of _) as [e|]; [done|].
  by destruct (concat _) as [|r value].
Qed.

Lemma elem_of_members_of_row self row m :
  m ∈ members_of_row self row →
  m_groups m = dss_name row ∧ m_login m = get_user_id (m_email m).
Proof.
  unfold members_of_row, members_frame.
  destruct (group_search (session self) (aad_name row)) as [[|id ids]|e];
    try by intros ?%elem_of_nil.
  destruct (truthy (Some id)); [|by intros ?%elem_of_nil].
  destruct (fetch_pages _) as [[|r value]|e]; try by intros ?%elem_of_nil.
  by intros (r' & -> & _)%list_elem_of_fmap.
Qed.

Lemma directory_members_mapped self m :
  m ∈ directory_members self →
  m_login m = get_user_id (m_email m)
  ∧ m_groups m ∈ dss_name <$> rows (groups_df self).
Proof.
  unfold directory_members.
  intros (row & Hm & Hrow)%list_elem_of_bind.
  apply elem_of_members_of_row in Hm as [Hg Hl]. split; [done|].
  rewrite Hg. by apply list_elem_of_fmap_2.
Qed.

Lemma query_graph_log self rows group_members_df st :
  ∃ new,
    query_graph self rows group_members_df st
    = (Returned (group_members_df ++ (rows ≫= members_of_row self)),
       set_log (λ log, log ++ new) st)
    ∧ Forall (λ e, type e = "WARNING" ∧ user e = run_user self) new
    ∧ length new = length (filter (λ row, warned self row = true) rows).
Proof.
  assert (∀ st new1 new2,
            set_log (λ log, log ++ new2) (set_log (λ log, log ++ [new1]) st)
            = set_log (λ log, log ++ new1 :: new2) st) as Hset.
  { intros st0 new1 new2. unfold set_log. simpl. f_equal.
    by rewrite <- app_assoc. }
  revert group_members_df st.
  induction rows as [|row rows IH]; intros group_members_df st.
  { exists []. destruct st. unfold set_log. simpl.
    by rewrite !app_nil_r. }
  assert (∀ df message,
            ∃ new,
              query_graph self rows df (logged self message "WARNING" st)
              = (Returned (df ++ (rows ≫= members_of_row self)),
                 set_log (λ log, log ++ new) st)
              ∧ Forall (λ e, type e = "WARNING" ∧ user e = run_user self) new
              ∧ length new
                = S (length (filter (λ row, warned self row = true) rows)))
    as IHlog.
  { intros df message.
    destruct (IH df (logged self message "WARNING" st))
      as (new & -> & Hall & Hlen).
    eexists (_ :: new). unfold logged. rewrite Hset. split; [done|].
    split; [by constructor|]. simpl. by rewrite Hlen. }
  cbn [query_graph]. unfold_M. rewrite bind_cons.
  unfold query_group, members_of_row at 1.
  destruct (group_search (session self) (aad_name row)) as [[|id ids]|e]
    eqn:Hsearch; unfold_M; rewrite ?add_log_logged.
  - cbn [truthy].
    destruct (IHlog group_members_df
                ("No return value from Graph for group " +:+ aad_name row))
      as (new & -> & Hall & Hlen).
    exists new. split; [done|]. split; [done|].
    by rewrite filter_cons_True by (unfold warned; by rewrite Hsearch).
  - destruct (truthy (Some id)) eqn:Hid.
    + unfold query_members. cbn [from_option]. unfold Datatypes.id.
      destruct (members_frame self id (dss_name row)) as [frame|e]
        eqn:Hframe; unfold_M; rewrite ?add_log_logged;
        cbn [from_option].
      * destruct (IH (group_members_df ++ frame) st)
          as (new & -> & Hall & Hlen).
        exists new. rewrite <- app_assoc. split; [done|]. split; [done|].
        rewrite filter_cons_False; [done|].
        unfold warned. by rewrite Hsearch, Hid, Hframe.
      * destruct (IHlog (group_members_df ++ [])
                    ("Group " +:+ quoted (dss_name row)
                     +:+ " members cannot be retrieved from AAD: " +:+ e))
          as (new & -> & Hall & Hlen).
        exists new. rewrite app_nil_r. split; [done|]. split; [done|].
        by rewrite filter_cons_True
          by (unfold warned; by rewrite Hsearch, Hid, Hframe).
    + destruct (IH group_members_df st) as (new & -> & Hall & Hlen).
      exists new. split; [done|]. split; [done|].
      rewrite filter_cons_False; [done|].
      unfold warned. by rewrite Hsearch, Hid.
  - cbn [truthy].
    destruct (IHlog group_members_df
                ("Error calling Graph API for group " +:+ dq
                 +:+ aad_name row +:+ ": " +:+ e))
      as (new & -> & Hall & Hlen).
    exists new. split; [done|]. split; [done|].
    by rewrite filter_cons_True by (unfold warned; by rewrite Hsearch).
Qed.

(** X11. The loop of phase 2 over the groups dataset always completes: it
    returns the member rows of the groups that could be listed, in the
    order of the dataset, changes nothing but the log, and adds to the log
    one WARNING, in the name of the user who runs the macro, for each group
    that was not found or whose members could not be listed. *)
Theorem query_graph_completes (self : MyRunnable) (rows : list GroupsRow)
    (group_members_df : list DirectoryMember) (st : State) :
  ∃ new,
    query_graph self rows group_members_df st
    = (Returned (group_members_df ++ (rows ≫= members_of_row self)),
       set_log (λ log, log ++ new) st)
    ∧ Forall (λ e, type e = "WARNING" ∧ user e = run_user self) new
    ∧ length new = length (filter (λ row, warned self row = true) rows).
Proof. apply query_graph_log. Qed.

(** X12. Every member row that phase 2 hands to phase 3 carries the login
    made from its e-mail address, a login without ["@"], and a group that
    is a DSS name of the groups dataset. *)
Theorem directory_members_tagged (self : MyRunnable) :
  Forall (λ m, m_login m = get_user_id (m_email m)
               ∧ has_char "@"%char (m_login m) = false
               ∧ m_groups m ∈ dss_name <$> rows (groups_df self))
         (directory_members self).
Proof.
  apply Forall_forall. intros m [Hl Hg]%directory_members_mapped.
  split; [done|]. split; [|done]. rewrite Hl.
  by apply has_char_replace_char.
Qed.

(* ================================================================== *)
(** * Phase 3: the directory users *)

Lemma ltb_total_ne s1 s2 :
  s1 ≠ s2 → String.ltb s1 s2 = true ∨ String.ltb s2 s1 = true.
Proof.
  intros Hne. unfold String.ltb. rewrite (String.compare_antisym s1 s2).
  destruct (String.compare s2 s1) eqn:Hcmp; simpl; [|by right|by left].
  apply String.compare_eq_iff in Hcmp. by destruct Hne.
Qed.

Lemma key_leb_total : Total (λ k1 k2, Is_true (key_leb k1 k2)).
Proof.
  intros [[l1 n1] e1] [[l2 n2] e2]. unfold key_leb. simpl.
  rewrite (String.eqb_sym l2 l1), (String.eqb_sym n2 n1).
  destruct (String.eqb_spec l1 l2) as [->|Hl]; simpl.
  - destruct (String.eqb_spec n1 n2) as [->|Hn]; simpl.
    + destruct (String.leb_total e1 e2) as [->| ->]; [by left|by right].
    + destruct (ltb_total_ne n1 n2 Hn) as [->| ->]; [by left|by right].
  - destruct (ltb_total_ne l1 l2 Hl) as [->| ->]; [by left|by right].
Qed.

Lemma elem_of_sort_values df m : m ∈ sort_values df ↔ m ∈ df.
Proof. unfold sort_values. by rewrite merge_sort_Permutation. Qed.

Lemma elem_of_merge_license df license_lookup x :
  x ∈ merge_license df license_lookup ↔
  x.1 ∈ df
  ∧ ∃ r, r ∈ license_lookup ∧ r.1 = m_groups x.1 ∧ x.2 = r.2.
Proof.
  unfold merge_license. rewrite list_elem_of_bind. split.
  - intros (m & (r & -> & [Hr Hin]%list_elem_of_filter)%list_elem_of_fmap
            & Hm).
    simpl. split; [done|]. by exists r.
  - intros (Hm & r & Hr & Hg & Hl). exists x.1. split; [|done].
    apply list_elem_of_fmap. exists r. split.
    + destruct x as [m l]. simpl in *. by rewrite Hl.
    + by apply list_elem_of_filter.
Qed.

Lemma elem_of_groupby_unique df a :
  a ∈ groupby_unique df ↔
  (∃ x, x ∈ df ∧ member_key x = aad_key a)
  ∧ groups_aad a
    = unique ((λ x, m_groups x.1)
                <$> filter (λ x, member_key x = aad_key a) df)
  ∧ license_aad a
    = unique (snd <$> filter (λ x, member_key x = aad_key a) df).
Proof.
  unfold groupby_unique. rewrite list_elem_of_fmap. split.
  - intros (k & -> & Hk). rewrite merge_sort_Permutation in Hk.
    apply elem_of_remove_dups, list_elem_of_fmap in Hk as (x & -> & Hx).
    split; [|done]. by exists x.
  - intros ((x & Hx & Hk) & Hg & Hl). exists (aad_key a). split.
    + destruct a. simpl in *. by rewrite Hg, Hl.
    + rewrite merge_sort_Permutation. apply elem_of_remove_dups.
      rewrite <- Hk. by apply list_elem_of_fmap_2.
Qed.

Lemma elem_of_merged_members self x :
  x ∈ merge_license (sort_values (directory_members self))
        ((λ r, (dss_name r, license r)) <$> rows (groups_df self)) ↔
  x.1 ∈ directory_members self
  ∧ ∃ row, row ∈ rows (groups_df self) ∧ dss_name row = m_groups x.1
           ∧ license row = x.2.
Proof.
  rewrite elem_of_merge_license, elem_of_sort_values. split.
  - intros (Hm & r & (row & -> & Hrow)%list_elem_of_fmap & Hg & Hl).
    split; [done|]. by exists row.
  - intros (Hm & row & Hrow & Hg & Hl). split; [done|].
    exists (dss_name row, license row). split; [|done].
    by apply (list_elem_of_fmap_2 (λ r, (dss_name r, license r))).
Qed.

Lemma member_has_license self m :
  m ∈ directory_members self →
  ∃ row, row ∈ rows (groups_df self) ∧ dss_name row = m_groups m.
Proof.
  intros [_ (row & Hg & Hrow)%list_elem_of_fmap]%directory_members_mapped.
  by exists row.
Qed.

(** X13. The directory users of phase 3 are the distinct keys (login,
    display name, e-mail address) of the member rows of phase 2: each key
    once, no member lost, in ascending order of the key. *)
Theorem aad_users_of_keys (self : MyRunnable) :
  NoDup (aad_key <$> aad_users_of self)
  ∧ Sorted (λ k1 k2, Is_true (key_leb k1 k2)) (aad_key <$> aad_users_of self)
  ∧ ∀ k, k ∈ aad_key <$> aad_users_of self
         ↔ k ∈ key_of_member <$> directory_members self.
Proof.
  split; [apply NoDup_aad_users_of|]. split.
  - unfold aad_users_of. rewrite groupby_unique_keys.
    apply (@Sorted_merge_sort _ _ _ key_leb_total).
  - intros k. unfold aad_users_of. rewrite groupby_unique_keys.
    rewrite merge_sort_Permutation, elem_of_remove_dups.
    rewrite !list_elem_of_fmap. split.
    + intros (x & -> & [Hm _]%elem_of_merged_members). by exists x.1.
    + intros (m & -> & Hm).
      destruct (member_has_license self m Hm) as (row & Hrow & Hg).
      exists (m, license row). split; [done|].
      apply elem_of_merged_members. split; [done|]. by exists row.
Qed.

(** X14. A directory user of phase 3 carries, each once, exactly the DSS
    groups of the member rows with its key, and exactly the licenses that
    the groups dataset gives to those groups. *)
Theorem aad_users_of_groups (self : MyRunnable) :
  Forall (λ a,
            NoDup (groups_aad a) ∧ NoDup (license_aad a)
            ∧ (∀ g, g ∈ groups_aad a
                    ↔ ∃ m, m ∈ directory_members self
                           ∧ key_of_member m = aad_key a ∧ m_groups m = g)
            ∧ (∀ l, l ∈ license_aad a
                    ↔ ∃ m row, m ∈ directory_members self
                               ∧ key_of_member m = aad_key a
                               ∧ row ∈ rows (groups_df self)
                               ∧ dss_name row = m_groups m
                               ∧ license row = l))
         (aad_users_of self).
Proof.
  apply Forall_forall. intros a (_ & -> & ->)%elem_of_groupby_unique.
  split; [apply NoDup_unique|]. split; [apply NoDup_unique|]. split.
  - intros g. rewrite elem_of_unique, list_elem_of_fmap. split.
    + intros (x & -> & [Hk [Hm _]%elem_of_merged_members]%list_elem_of_filter).
      by exists x.1.
    + intros (m & Hm & Hk & <-).
      destruct (member_has_license self m Hm) as (row & Hrow & Hg).
      exists (m, license row). split; [done|].
      apply list_elem_of_filter. split; [done|].
      apply elem_of_merged_members. split; [done|]. by exists row.
  - intros l. rewrite elem_of_unique, list_elem_of_fmap. split.
    + intros (x & -> & [Hk (Hm & row & Hrow & Hg & Hl)%elem_of_merged_members]
                         %list_elem_of_filter).
      by exists x.1, row.
    + intros (m & row & Hm & Hk & Hrow & Hg & <-).
      exists (m, license row). split; [done|].
      apply list_elem_of_filter. split; [done|].
      apply elem_of_merged_members. split; [done|]. by exists row.
Qed.

(* ================================================================== *)
(** * Phase 4: the comparison table and the decisions *)

Lemma omap_row_aad_right_only (ds : list DssUser) :
  omap row_aad (right_only <$> ds) = [].
Proof. induction ds as [|d ds IH]; [done|]. by simpl. Qed.

Lemma omap_row_dss_right_only (ds : list DssUser) :
  omap row_dss (right_only <$> ds) = ds.
Proof. induction ds as [|d ds IH]; [done|]. simpl. by f_equal. Qed.

Lemma omap_row_dss_both a (ds : list DssUser) :
  omap row_dss (both a <$> ds) = ds.
Proof. induction ds as [|d ds IH]; [done|]. simpl. by f_equal. Qed.

Lemma filter_key_at_most_one (k : string * string * string) dss_users :
  NoDup (dss_key <$> dss_users) →
  length (filter (λ d, dss_key d = k) dss_users) ≤ 1.
Proof.
  intros Hnd.
  assert (NoDup (dss_key <$> filter (λ d, dss_key d = k) dss_users)) as Hf.
  { eapply sublist_NoDup; [done|]. apply fmap_sublist, sublist_filter. }
  destruct (filter _ dss_users) as [|d1 [|d2 ds]] eqn:Heq; simpl; [lia..|].
  assert (d1 ∈ filter (λ d, dss_key d = k) dss_users) as [H1 _]%list_elem_of_filter
    by (rewrite Heq; left).
  assert (d2 ∈ filter (λ d, dss_key d = k) dss_users) as [H2 _]%list_elem_of_filter
    by (rewrite Heq; right; left).
  simpl in Hf. rewrite H1, H2 in Hf. apply NoDup_cons in Hf as [Hf _].
  destruct Hf. left.
Qed.

Lemma omap_row_aad_merge_outer aad_users dss_users :
  NoDup (dss_key <$> dss_users) →
  omap row_aad (merge_outer aad_users dss_users) = aad_users.
Proof.
  intros Hnd. unfold merge_outer.
  rewrite omap_app, omap_row_aad_right_only, app_nil_r.
  induction aad_users as [|a aad_users IH]; [done|].
  rewrite bind_cons, omap_app, IH.
  pose proof (filter_key_at_most_one (aad_key a) dss_users Hnd) as Hlen.
  destruct (filter _ dss_users) as [|d1 [|d2 ds]]; simpl in *; [done..|lia].
Qed.

Lemma omap_row_dss_matches aad_users dss_users :
  omap row_dss
    (a ← aad_users;
     match filter (λ d, dss_key d = aad_key a) dss_users with
     | [] => [left_only a]
     | matches => both a <$> matches
     end)
  = a ← aad_users; filter (λ d, dss_key d = aad_key a) dss_users.
Proof.
  induction aad_users as [|a aad_users IH]; [done|].
  rewrite !bind_cons, omap_app, IH. f_equal.
  destruct (filter _ dss_users) as [|d ds]; [done|].
  apply omap_row_dss_both.
Qed.

Lemma omap_row_dss_merge_outer aad_users dss_users :
  NoDup (aad_key <$> aad_users) → NoDup dss_users →
  omap row_dss (merge_outer aad_users dss_users) ≡ₚ dss_users.
Proof.
  intros Ha Hd. unfold merge_outer.
  rewrite omap_app, omap_row_dss_right_only, omap_row_dss_matches.
  apply NoDup_Permutation; [|done|].
  - apply NoDup_app. split_and!.
    + apply NoDup_bind.
      * intros a1 a2 d Ha1 Ha2 [H1 _]%list_elem_of_filter
          [H2 _]%list_elem_of_filter.
        apply (NoDup_fmap_eq aad_key aad_users); [done..|congruence].
      * intros a _. by apply NoDup_filter.
      * by apply NoDup_fmap_1 in Ha.
    + intros d (a & [Hk _]%list_elem_of_filter & Hin)%list_elem_of_bind
        [Hno _]%list_elem_of_filter.
      apply Hno. rewrite Hk. by apply list_elem_of_fmap_2.
    + by apply NoDup_filter.
  - intros d. rewrite elem_of_app, list_elem_of_bind. split.
    + intros [(a & [_ Hin]%list_elem_of_filter & _)
             |[_ Hin]%list_elem_of_filter]; done.
    + intros Hin.
      destruct (decide (dss_key d ∈ aad_key <$> aad_users)) as [Hk|Hk].
      * left. apply list_elem_of_fmap in Hk as (a & Hk & Ha').
        exists a. split; [|done]. by apply list_elem_of_filter.
      * right. by apply list_elem_of_filter.
Qed.

Lemma NoDup_dss_key_dss_users_of us : NoDup (dss_key <$> dss_users_of us).
Proof.
  apply (NoDup_fmap_1 (λ k : string * string * string, k.1.1)).
  rewrite <- list_fmap_compose. unfold dss_users_of.
  rewrite <- list_fmap_compose.
  apply (NoDup_fst_map_to_list us).
Qed.

(** X15. The comparison table of phase 4 has exactly one row for every
    directory user, in the order of phase 3, and exactly one row for every
    DSS account. *)
Theorem user_comparison_covers (self : MyRunnable) (st : State) :
  omap row_aad (user_comparison_of self st) = aad_users_of self
  ∧ omap row_dss (user_comparison_of self st) ≡ₚ dss_users_of (users st).
Proof.
  unfold user_comparison_of. split.
  - apply omap_row_aad_merge_outer, NoDup_dss_key_dss_users_of.
  - apply omap_row_dss_merge_outer;
      [apply NoDup_aad_users_of|apply NoDup_dss_users_of].
Qed.

Lemma user_update_logs self user_id groups user_license st st' :
  user_update self user_id groups user_license st = (Returned tt, st') →
  length (log_df st') = S (length (log_df st)).
Proof.
  unfold user_update. destruct (flag_simulate self).
  { intros [= <-]. simpl. rewrite length_app. simpl. lia. }
  unfold_M. unfold client.get_definition, client.set_definition, add_log.
  simpl. destruct (users st !! user_id) as [d|] eqn:Hd; simpl; [|done].
  rewrite Hd. intros [= <-]. simpl. rewrite length_app. simpl. lia.
Qed.

(** X16. For an account of the macro's own kind whose directory user has a
    license, the loop of phase 4 leaves everything as it is exactly when
    every directory group is among the groups of the account and the
    license is its profile; in every other case it calls [user_update]
    with the directory groups followed by the local groups of the account
    and with the license. *)
Theorem reconcile_updates_iff (self : MyRunnable) (local_groups : list string)
    (a : AadUser) (d : DssUser) (st : State) :
  owned (definition d) → get_license (license_aad a) ≠ "NONE" →
  (reconcile self local_groups (both a d) st = (Returned tt, st)
   ↔ (∀ g, g ∈ groups_aad a → g ∈ groups (definition d))
     ∧ get_license (license_aad a) = userProfile (definition d))
  ∧ (reconcile self local_groups (both a d) st ≠ (Returned tt, st) →
     reconcile self local_groups (both a d) st
     = user_update self (aad_login a)
         (groups_aad a
          ++ elements ((list_to_set (groups (definition d)) : gset string)
                       ∩ list_to_set local_groups))
         (get_license (license_aad a)) st).
Proof.
  intros Howned Hlicense. rewrite reconcile_both_owned by done.
  rewrite <- in_sync_iff. case_bool_decide as Hsync.
  - split; [done|]. by intros [].
  - split; [|done]. split; [|done]. intros Hup.
    apply user_update_logs in Hup. lia.
Qed.

Lemma reconcile_updates_iff_witness :
  reconcile (macro false None two_row_mapping graph_after_leaving) []
            (both alice_aad alice_dss) after_leaving
  = (Returned tt, after_leaving).
Proof.
  apply (reconcile_updates_iff
           (macro false None two_row_mapping graph_after_leaving) []
           alice_aad alice_dss after_leaving); [reflexivity|discriminate|].
  split; [|reflexivity].
  intros g Hg. apply list_elem_of_singleton in Hg. subst g. left.
Defined.

(** X17. The group list that phase 4 writes to an account holds a group
    exactly when the directory grants it, or when the account has it, DSS
    knows it and it is not the DSS name of a row of the groups dataset: a
    group of the dataset stays only through the directory. *)
Theorem update_keeps_local_groups (self : MyRunnable)
    (dss_groups : list string) (a : AadUser) (d : UserDef) (g : string) :
  g ∈ all_groups_of (local_groups_of self dss_groups) a d ↔
  g ∈ groups_aad a
  ∨ (g ∈ groups d ∧ g ∈ dss_groups
     ∧ g ∉ dss_name <$> rows (groups_df self)).
Proof.
  unfold all_groups_of, local_groups_of, list_diff.
  rewrite elem_of_app, elem_of_elements, elem_of_intersection.
  rewrite list_to_set_elements_L, elem_of_difference, !elem_of_list_to_set.
  tauto.
Qed.

(** X18. A directory user without a DSS account whose groups give no
    license, or the license "NONE" only, is not created, with or without
    the simulate flag: the loop of phase 4 logs one INFO record and sends
    nothing to DSS. *)
Theorem unlicensed_user_is_not_created (self : MyRunnable)
    (local_groups : list string) (a : AadUser) (st : State) :
  (∀ l, l ∈ license_aad a → l ∈ possible_licenses → l = "NONE") →
  reconcile self local_groups (left_only a) st
  = (Returned tt,
     logged self
       ("User " +:+ quoted (aad_login a)
        +:+ " will not be created, since he has no license.") "INFO" st).
Proof.
  intros Hnone.
  assert (get_license (license_aad a) = "NONE") as Hlicense.
  { destruct (decide (Exists (λ x, x ∈ license_aad a) possible_licenses))
      as [Hex|Hno].
    - apply Exists_exists in Hex.
      destruct (first_license_in_first (license_aad a) possible_licenses Hex)
        as (i & _ & Hl & _).
      apply Hnone; [done|apply get_license_recognized].
    - apply first_license_in_none. intros x Hx Hl.
      apply Hno. apply Exists_exists. by exists x. }
  simpl. rewrite Hlicense. unfold user_create.
  by rewrite bool_decide_eq_true_2.
Qed.

Lemma unlicensed_user_is_not_created_witness :
  aad_users_of (macro false None guests_mapping graph_carol) = [guest_aad]
  ∧ requests (run (macro false None guests_mapping graph_carol)
                  (dss ∅ ["eng"])).2 = []
  ∧ reconcile (macro false None guests_mapping graph_carol) [] (left_only guest_aad)
              (dss ∅ ["eng"])
    = (Returned tt,
       logged (macro false None guests_mapping graph_carol)
         ("User " +:+ quoted "c_x.com"
          +:+ " will not be created, since he has no license.") "INFO"
         (dss ∅ ["eng"])).
Proof.
  split; [reflexivity|]. split; [reflexivity|].
  apply (unlicensed_user_is_not_created
           (macro false None guests_mapping graph_carol) [] guest_aad
           (dss ∅ ["eng"])).
  intros l Hl _. apply list_elem_of_singleton in Hl. by subst l.
Defined.

(* ================================================================== *)
(** * The mutators without the simulate flag *)

Lemma for_each_raises {A} (body : A → M unit) x l st e st' :
  body x st = (Raised e, st') → for_each body (x :: l) st = (Raised e, st').
Proof. intros H. cbn [for_each]. unfold_M. by rewrite H. Qed.

(** X19. When a directory user without a row on the DSS side has a license
    and its login is taken in DSS (by an account with another display name
    or e-mail address), the creation is refused, and phase 4 stops at that
    row: nothing is logged, the user base stays as it is, and no later row
    of the table is handled. *)
Theorem taken_login_ends_phase_4 (self : MyRunnable)
    (local_groups : list string) (a : AadUser) (rest : list ComparisonRow)
    (st : State) (d : UserDef) :
  flag_simulate self = false →
  get_license (license_aad a) ≠ "NONE" →
  users st !! aad_login a = Some d →
  for_each (reconcile self local_groups) (left_only a :: rest) st
  = (Raised ("User already exists: " +:+ aad_login a),
     sent (POST_user (aad_login a) (aad_displayName a) (groups_aad a)
                     EmptyString "LOCAL_NO_AUTH"
                     (get_license (license_aad a))) st).
Proof.
  intros Hreal Hlicense Hd. apply for_each_raises. simpl.
  unfold user_create. rewrite bool_decide_eq_false_2 by done. rewrite Hreal.
  unfold_M. unfold client.create_user. by rewrite Hd.
Qed.

Lemma taken_login_ends_phase_4_witness :
  (λ e, (type e, message e))
    <$> log_df (run (macro false None one_row_mapping graph_carol)
                    renamed_carol).2
  = [("ERROR", "User already exists: c_x.com")]
  ∧ users (run (macro false None one_row_mapping graph_carol)
               renamed_carol).2 = users renamed_carol
  ∧ (for_each (reconcile (macro false None one_row_mapping graph_carol) [])
              (user_comparison_of
                 (macro false None one_row_mapping graph_carol) renamed_carol)
              renamed_carol).1
    = Raised "User already exists: c_x.com".
Proof.
  split; [reflexivity|]. split; [reflexivity|].
  change (user_comparison_of _ _)
    with [left_only {| aad_login := "c_x.com"; aad_displayName := "Carol";
                       aad_email := "c@x.com"; groups_aad := ["eng"];
                       license_aad := ["READER"] |};
          right_only {| login := "c_x.com";
                        definition := account "Carol C." "c@x.com" ["eng"]
                                        "LOCAL_NO_AUTH" "READER" |}].
  rewrite (taken_login_ends_phase_4
             (macro false None one_row_mapping graph_carol) [] _ _
             renamed_carol
             (account "Carol C." "c@x.com" ["eng"] "LOCAL_NO_AUTH" "READER"));
    [reflexivity|reflexivity|discriminate|reflexivity].
Defined.

(** X20. Without the simulate flag, creating a licensed user under a free
    login and then deleting it gives back the user base: the account in
    between is the one described by the arguments, of kind LOCAL_NO_AUTH,
    with the e-mail address set by a second request. *)
Theorem user_create_then_delete (self : MyRunnable)
    (user_id display_name email : string) (groups : list string)
    (user_license reason : string) (st : State) :
  flag_simulate self = false →
  user_license ≠ "NONE" →
  users st !! user_id = None →
  ∃ st1 st2,
    user_create self user_id display_name email groups user_license st
    = (Returned tt, st1)
    ∧ users st1
      = <[user_id := created display_name email groups user_license]>
          (users st)
    ∧ user_delete self user_id reason st1 = (Returned tt, st2)
    ∧ users st2 = users st
    ∧ requests st2
      = requests st
        ++ [POST_user user_id display_name groups EmptyString "LOCAL_NO_AUTH"
                      user_license;
            PUT_user user_id
                     (created display_name email groups user_license);
            DELETE_user user_id]
    ∧ type <$> log_df st2 = (type <$> log_df st) ++ ["INFO"; "INFO"].
Proof.
  intros Hreal Hlicense Hfree. unfold user_create, user_delete.
  rewrite bool_decide_eq_false_2 by done. rewrite Hreal.
  unfold_M. unfold client.create_user, client.get_definition,
    client.set_definition, client.delete, add_log. simpl.
  rewrite Hfree. simpl. rewrite lookup_insert_eq. simpl.
  rewrite lookup_insert_eq. do 2 eexists. split; [reflexivity|]. simpl.
  rewrite insert_insert_eq. split; [reflexivity|].
  rewrite lookup_insert_eq. split; [reflexivity|]. simpl.
  split; [by rewrite insert_insert_eq, delete_insert_id|].
  split; [by rewrite <- !app_assoc|].
  by rewrite !fmap_app, <- app_assoc.
Qed.

Lemma user_create_then_delete_witness :
  ∃ st1 st2,
    user_create (macro false None one_row_mapping graph_carol) "c_x.com"
                "Carol" "c@x.com" ["eng"] "READER" (dss ∅ ["eng"])
    = (Returned tt, st1)
    ∧ users st1 !! "c_x.com"
      = Some (account "Carol" "c@x.com" ["eng"] "LOCAL_NO_AUTH" "READER")
    ∧ user_delete (macro false None one_row_mapping graph_carol) "c_x.com"
                  "No license." st1 = (Returned tt, st2)
    ∧ users st2 = ∅.
Proof.
  destruct (user_create_then_delete
              (macro false None one_row_mapping graph_carol) "c_x.com"
              "Carol" "c@x.com" ["eng"] "READER" "No license."
              (dss ∅ ["eng"]) eq_refl)
    as (st1 & st2 & H1 & Hu1 & H2 & Hu2 & _); [discriminate|reflexivity|].
  exists st1, st2. split; [exact H1|]. split.
  - rewrite Hu1. apply lookup_insert_eq.
  - split; [exact H2|exact Hu2].
Defined.

(** X21. Without the simulate flag, [user_delete] of an account that
    exists removes that account and no other, sends a single DELETE, and
    logs the reason it was given. *)
Theorem user_delete_frame (self : MyRunnable) (user_id reason : string)
    (st : State) (d : UserDef) :
  flag_simulate self = false →
  users st !! user_id = Some d →
  ∃ st',
    user_delete self user_id reason st = (Returned tt, st')
    ∧ users st' !! user_id = None
    ∧ (∀ l, l ≠ user_id → users st' !! l = users st !! l)
    ∧ requests st' = requests st ++ [DELETE_user user_id]
    ∧ dss_groups st' = dss_groups st
    ∧ log_df st'
      = log_df st
        ++ [log_record self st
              ("User " +:+ quoted user_id +:+ " has been deleted. Reason: "
               +:+ reason) "INFO"].
Proof.
  intros Hreal Hd. unfold user_delete. rewrite Hreal.
  unfold_M. unfold client.delete, add_log. rewrite Hd. simpl.
  eexists. split; [reflexivity|]. simpl.
  split; [apply lookup_delete_eq|].
  split; [|done]. intros l Hl. by apply lookup_delete_ne.
Qed.

Lemma user_delete_frame_witness :
  ∃ st',
    user_delete (macro false None one_row_mapping graph_no_group) "a_x.com"
                "Not found in AAD." scenario_C = (Returned tt, st')
    ∧ users st' !! "a_x.com" = None
    ∧ requests st' = [DELETE_user "a_x.com"].
Proof.
  destruct (user_delete_frame
              (macro false None one_row_mapping graph_no_group) "a_x.com"
              "Not found in AAD." scenario_C a_x eq_refl eq_refl)
    as (st' & H & Hu & _ & Hr & _).
  exists st'. split; [exact H|]. split; [exact Hu|exact Hr].
Defined.

(* ================================================================== *)
(** * The run as a whole: its log, its requests, its table *)

Lemma perform_log self dec st r st' :
  perform self dec st = (r, st') →
  ∃ new, log_df st' = log_df st ++ new
         ∧ Forall (λ e, type e = "INFO" ∨ type e = "WARNING") new.
Proof.
  destruct dec as [user_id display_name email groups user_license
                  |user_id groups user_license|user_id reason
                  |user_id dss_user_type|]; simpl;
    unfold user_create, user_update, user_delete;
    repeat case_bool_decide; destruct (flag_simulate self);
    unfold_M;
    unfold client.create_user, client.get_definition, client.set_definition,
      client.delete, add_log; simpl;
    try (destruct (users st !! user_id) as [d|] eqn:Hd; simpl;
         repeat (rewrite lookup_insert_eq; simpl); rewrite ?Hd; simpl);
    intros [= <- <-]; simpl;
    first [ exists []; rewrite app_nil_r; split; [reflexivity|constructor]
          | eexists [_]; split; [reflexivity|];
            constructor; [simpl; auto|constructor] ].
Qed.

Lemma perform_written self dec st r st' :
  perform self dec st = (r, st') → written st' = written st.
Proof.
  destruct dec as [user_id display_name email groups user_license
                  |user_id groups user_license|user_id reason
                  |user_id dss_user_type|]; simpl;
    unfold user_create, user_update, user_delete;
    repeat case_bool_decide; destruct (flag_simulate self);
    unfold_M;
    unfold client.create_user, client.get_definition, client.set_definition,
      client.delete, add_log; simpl;
    try (destruct (users st !! user_id) as [d|] eqn:Hd; simpl;
         repeat (rewrite lookup_insert_eq; simpl); rewrite ?Hd; simpl);
    by intros [= <- <-].
Qed.

Lemma for_each_written self decs st r st' :
  for_each (perform self) decs st = (r, st') → written st' = written st.
Proof.
  revert st. induction decs as [|dec decs IH]; intros st.
  { by intros [= <- <-]. }
  cbn [for_each]. unfold_M.
  destruct (perform self dec st) as [[[]|e] st1] eqn:Hdec.
  - intros Hrest%IH. rewrite Hrest. by apply perform_written in Hdec.
  - intros [= <- <-]. by apply perform_written in Hdec.
Qed.

Lemma phases_written self st : written (phases self st).2 = written st.
Proof.
  destruct (phases_preflight self st) as (st1 & ((_ & _ & _ & Hw) & _) & ->).
  destruct (preflight self (dss_groups st)) as [e|]; [done|].
  rewrite for_each_reconcile.
  destruct (for_each _ _ st1) as [r st'] eqn:Hloop. simpl.
  apply for_each_written in Hloop. by rewrite Hloop.
Qed.

Lemma for_each_log self decs st r st' :
  for_each (perform self) decs st = (r, st') →
  ∃ new, log_df st' = log_df st ++ new
         ∧ Forall (λ e, type e = "INFO" ∨ type e = "WARNING") new.
Proof.
  revert st. induction decs as [|dec decs IH]; intros st.
  { intros [= <- <-]. exists []. by rewrite app_nil_r. }
  cbn [for_each]. unfold_M.
  destruct (perform self dec st) as [[[]|e] st1] eqn:Hdec.
  - intros Hrest. apply perform_log in Hdec as (new1 & Hl1 & Hall1).
    apply IH in Hrest as (new2 & Hl2 & Hall2).
    exists (new1 ++ new2). rewrite Hl2, Hl1, app_assoc. split; [done|].
    by apply Forall_app.
  - intros [= <- <-]. by apply perform_log in Hdec.
Qed.

Lemma phases_log self st :
  ∃ new, log_df (phases self st).2 = log_df st ++ new
         ∧ Forall (λ e, type e = "INFO" ∨ type e = "WARNING") new.
Proof.
  destruct (phases_preflight self st)
    as (st1 & (_ & new1 & Hl1 & Hall1) & ->).
  assert (Forall (λ e, type e = "INFO" ∨ type e = "WARNING") new1) as Hall.
  { eapply Forall_impl; [exact Hall1|]. simpl. auto. }
  destruct (preflight self (dss_groups st)) as [e|]; simpl.
  { by exists new1. }
  rewrite for_each_reconcile.
  destruct (for_each _ _ st1) as [r st'] eqn:Hloop. simpl.
  apply for_each_log in Hloop as (new2 & Hl2 & Hall2).
  exists (new1 ++ new2). rewrite Hl2, Hl1, app_assoc. split; [done|].
  by apply Forall_app.
Qed.

Lemma run_log self st :
  log_df (run self st).2
  = log_df (phases self st).2
    ++ match (phases self st).1 with
       | Raised e => [log_record self (phases self st).2 e "ERROR"]
       | Returned _ => []
       end.
Proof.
  unfold run. unfold_M. unfold save_log, create_resulttable, add_log.
  destruct (phases self st) as [[[]|e] st1]; simpl;
    destruct (truthy (log_dataset self));
    try destruct (dataset_write_error self _); simpl;
    by rewrite ?app_nil_r.
Qed.

(** X22. A run only appends to the log. What it appends is a sequence of
    INFO and WARNING records, followed by one ERROR record exactly when a
    phase raised; that record is the last one and carries the text of the
    exception. *)
Theorem run_log_append_only (self : MyRunnable) (st : State) :
  ∃ new,
    log_df (run self st).2
    = log_df st ++ new
      ++ match (phases self st).1 with
         | Raised e => [log_record self (phases self st).2 e "ERROR"]
         | Returned _ => []
         end
    ∧ Forall (λ e, type e = "INFO" ∨ type e = "WARNING") new.
Proof.
  destruct (phases_log self st) as (new & Hl & Hall). exists new.
  split; [|done]. by rewrite run_log, Hl, app_assoc.
Qed.

(** X23. When no log dataset is configured, or when the log dataset can be
    written, a run returns its table whatever happened in the phases: the
    table has the four columns of the log and one record for each record
    of the log, and the log that is saved is the log that the table
    shows. *)
Theorem run_saves_what_it_shows (self : MyRunnable) (st : State) :
  truthy (log_dataset self) = false
  ∨ dataset_write_error self (default EmptyString (log_dataset self)) = None →
  ∃ table st',
    run self st = (Returned table, st')
    ∧ table_columns table
      = [("date", "Date", "STRING"); ("user", "User", "STRING");
         ("type", "Type", "STRING"); ("message", "Message", "STRING")]
    ∧ records table = records_of (log_df st')
    ∧ written st'
      = written st
        ++ (if truthy (log_dataset self)
            then [(default EmptyString (log_dataset self), log_df st')]
            else []).
Proof.
  intros Hsave. pose proof (phases_written self st) as Hwritten.
  revert Hwritten Hsave.
  unfold run. unfold_M. unfold save_log, create_resulttable, add_log.
  destruct (phases self st) as [[[]|e] st1]; simpl; intros <-;
    destruct (truthy (log_dataset self));
    intros [Hno|Hok]; try done; rewrite ?Hok; simpl;
    do 2 eexists; (split; [reflexivity|]); simpl;
    by rewrite ?app_nil_r.
Qed.

Lemma run_saves_what_it_shows_witness :
  ∃ table st',
    run (writable (macro true (Some "log") two_row_mapping graph_team))
        before_sync = (Returned table, st')
    ∧ length (records table) = 3
    ∧ written st' = [("log", log_df st')].
Proof.
  destruct (run_saves_what_it_shows
              (writable (macro true (Some "log") two_row_mapping graph_team))
              before_sync (or_intror eq_refl))
    as (table & st' & Hrun & _ & Hrec & Hw).
  exists table, st'. split; [exact Hrun|].
  assert (table = (match run (writable (macro true (Some "log")
                                          two_row_mapping graph_team))
                             before_sync with
                   | (Returned t, _) => t
                   | _ => table
                   end)) as Ht by (by rewrite Hrun).
  assert (st' = (run (writable (macro true (Some "log")
                                  two_row_mapping graph_team))
                     before_sync).2) as Hst by (by rewrite Hrun).
  split.
  - rewrite Ht. reflexivity.
  - rewrite Hw. reflexivity.
Defined.

Lemma kept_or_owned_refl us us' : us' = us → kept_or_owned us us'.
Proof. intros -> l d Hl. by left. Qed.

Section entitled.
Context (self : MyRunnable) (before : gmap string UserDef).

Local Abbreviation proper st st' :=
  (kept_or_owned before (users st')
   ∧ ∃ new, requests st' = requests st ++ new
            ∧ Forall (entitled before) new).

Lemma proper_refl st st' :
  kept_or_owned before (users st) →
  users st' = users st → requests st' = requests st → proper st st'.
Proof.
  intros Hk Hu Hr. split; [by rewrite Hu|]. exists [].
  by rewrite app_nil_r.
Qed.

Lemma user_create_entitled user_id display_name email groups user_license
    st r st' :
  user_license ∈ possible_licenses →
  kept_or_owned before (users st) →
  user_create self user_id display_name email groups user_license st
  = (r, st') →
  proper st st'.
Proof.
  intros Hlicense Hk. unfold user_create. case_bool_decide as Hnone.
  { intros [= <- <-]. by apply proper_refl. }
  destruct (flag_simulate self).
  { intros [= <- <-]. by apply proper_refl. }
  unfold_M. unfold client.create_user, client.get_definition,
    client.set_definition, add_log. simpl.
  destruct (users st !! user_id) as [d|]; simpl.
  - intros [= <- <-]. simpl. split; [done|]. eexists [_]. split; [done|].
    constructor; [by simpl|constructor].
  - repeat (rewrite lookup_insert_eq; simpl). intros [= <- <-]. simpl.
    split.
    + intros l d. rewrite insert_insert_eq.
      intros [[<- <-]|[_ Hl]]%lookup_insert_Some; [by right|by apply Hk].
    + eexists [_; _]. rewrite <- app_assoc. split; [done|].
      constructor; [by simpl|]. constructor; [by simpl|constructor].
Qed.

Lemma user_update_entitled user_id groups user_license st r st' :
  user_license ∈ possible_licenses → user_license ≠ "NONE" →
  (∀ cur, users st !! user_id = Some cur → owned cur) →
  kept_or_owned before (users st) →
  user_update self user_id groups user_license st = (r, st') →
  proper st st'.
Proof.
  intros Hlicense Hnone Hcur Hk. unfold user_update.
  destruct (flag_simulate self).
  { intros [= <- <-]. by apply proper_refl. }
  unfold_M. unfold client.get_definition, client.set_definition, add_log.
  simpl. destruct (users st !! user_id) as [d|] eqn:Hd; simpl; rewrite ?Hd.
  - intros [= <- <-]. simpl. split.
    + intros l d'.
      intros [[<- <-]|[_ Hl]]%lookup_insert_Some; [|by apply Hk].
      right. by apply (Hcur d).
    + eexists [_]. split; [done|]. constructor; [|constructor].
      simpl. split; [|done]. by apply (Hcur d).
  - intros [= <- <-]. by apply proper_refl.
Qed.

Lemma user_delete_entitled user_id reason st r st' :
  (∃ d, before !! user_id = Some d ∧ owned d) →
  kept_or_owned before (users st) →
  user_delete self user_id reason st = (r, st') →
  proper st st'.
Proof.
  intros Hd Hk. unfold user_delete. destruct (flag_simulate self).
  { intros [= <- <-]. by apply proper_refl. }
  unfold_M. unfold client.delete, add_log. simpl.
  destruct (users st !! user_id) as [d|]; simpl.
  - intros [= <- <-]. simpl. split.
    + intros l d' [_ Hl]%lookup_delete_Some. by apply Hk.
    + eexists [_]. split; [done|]. constructor; [done|constructor].
  - intros [= <- <-]. simpl. split; [done|]. eexists [_]. split; [done|].
    constructor; [done|constructor].
Qed.

Lemma reconcile_entitled local_groups row st r st' :
  row_of_base before row →
  kept_or_owned before (users st) →
  reconcile self local_groups row st = (r, st') →
  proper st st'.
Proof.
  intros Hrow Hk. destruct row as [a|d|a d]; simpl.
  - apply user_create_entitled; [apply get_license_recognized|done].
  - case_bool_decide as Hown.
    + apply user_delete_entitled; [|done]. by exists (definition d).
    + intros [= <- <-]. by apply proper_refl.
  - destruct Hrow as [Hd Hkey].
    assert (aad_login a = login d) as Hlogin by by injection Hkey.
    rewrite Hlogin. case_bool_decide as Hforeign.
    { intros [= <- <-]. by apply proper_refl. }
    case_bool_decide as Hnone.
    { apply user_delete_entitled; [|done]. by exists (definition d). }
    destruct (_ || _).
    + apply user_update_entitled;
        [apply get_license_recognized|done| |done].
      intros cur Hcur. destruct (Hk _ _ Hcur) as [Hsame|Howned]; [|done].
      rewrite Hd in Hsame. by injection Hsame as <-.
    + intros [= <- <-]. by apply proper_refl.
Qed.

Lemma for_each_entitled local_groups table st r st' :
  (∀ row, row ∈ table → row_of_base before row) →
  kept_or_owned before (users st) →
  for_each (reconcile self local_groups) table st = (r, st') →
  proper st st'.
Proof.
  revert st. induction table as [|row table IH]; intros st Hrows Hk.
  { intros [= <- <-]. by apply proper_refl. }
  cbn [for_each]. unfold_M.
  destruct (reconcile self local_groups row st) as [[[]|e] st1] eqn:Hrow.
  - apply reconcile_entitled in Hrow as (Hk1 & new1 & Hr1 & Hall1);
      [|apply Hrows; left|done].
    intros (Hk2 & new2 & Hr2 & Hall2)%IH; [|intros ??; apply Hrows; by right|done].
    split; [done|]. exists (new1 ++ new2). rewrite Hr2, Hr1, app_assoc.
    split; [done|]. by apply Forall_app.
  - intros [= <- <-]. apply reconcile_entitled in Hrow; [done|..|done].
    apply Hrows. left.
Qed.

End entitled.

(** X24. Whatever the directory and the user base hold, every request that
    a run sends to DSS is one the macro is entitled to: a creation carries
    an empty password, the kind LOCAL_NO_AUTH and a possible license other
    than "NONE"; a definition that is written is of the kind LOCAL_NO_AUTH
    with such a license; a deletion names an account that was of the kind
    LOCAL_NO_AUTH when the run started. After the run every account is as
    it was before or of the kind LOCAL_NO_AUTH. *)
Theorem run_requests_entitled (self : MyRunnable) (st : State) :
  kept_or_owned (users st) (users (run self st).2)
  ∧ ∃ new, requests (run self st).2 = requests st ++ new
           ∧ Forall (entitled (users st)) new.
Proof.
  destruct (phases self st) as [r st1] eqn:Hphases.
  destruct (run_after_phases self st r st1 Hphases) as [-> ->].
  destruct (phases_preflight self st)
    as (st0 & ((Hu & Hr & _) & _) & Heq).
  rewrite Hphases in Heq.
  destruct (preflight self (dss_groups st)) as [e|].
  { injection Heq as -> ->. apply proper_refl; [|done..].
    by apply kept_or_owned_refl. }
  symmetry in Heq. apply for_each_entitled with (before := users st) in Heq.
  - destruct Heq as (Hk & new & Hreq & Hall). split; [done|].
    exists new. by rewrite Hreq, Hr.
  - intros row. apply merge_outer_row_of_base.
  - by apply kept_or_owned_refl.
Qed.

(** X25. When the groups dataset is valid and names a group that DSS does
    not have, the phases raise at once: Graph is not queried, nothing is
    logged or changed, and the message lists the groups of the dataset
    that DSS lacks. *)
Theorem missing_group_ends_run (self : MyRunnable) (st : State) (g : string) :
  (validate_groups_df self st).1 = Returned tt →
  g ∈ dss_name <$> rows (groups_df self) →
  g ∉ dss_groups st →
  g ∈ list_diff (dss_name <$> rows (groups_df self)) (dss_groups st)
  ∧ phases self st
    = (Raised ("Groups "
               +:+ str_list (list_diff (dss_name <$> rows (groups_df self))
                                       (dss_groups st))
               +:+ " are missing from DSS"),
       st).
Proof.
  intros Hvalid Hg Hno.
  assert (g ∈ list_diff (dss_name <$> rows (groups_df self)) (dss_groups st))
    as Hmissing.
  { unfold list_diff.
    by rewrite elem_of_elements, elem_of_difference, !elem_of_list_to_set. }
  split; [done|]. unfold phases. unfold_M. revert Hvalid.
  unfold validate_groups_df. repeat case_bool_decide; try done. intros _.
  unfold_M. unfold client.list_users, client.list_groups.
  rewrite bool_decide_eq_true_2; [done|].
  intros Hnil. rewrite Hnil in Hmissing. by apply elem_of_nil in Hmissing.
Qed.

Lemma missing_group_ends_run_witness :
  phases (macro false None one_row_mapping graph_carol) (dss ∅ ["ops"])
  = (Raised "Groups ['eng'] are missing from DSS", dss ∅ ["ops"]).
Proof.
  apply (missing_group_ends_run
           (macro false None one_row_mapping graph_carol) (dss ∅ ["ops"])
           "eng"); [reflexivity| |].
  - left.
  - intros H. apply list_elem_of_singleton in H. discriminate H.
Defined.

Lemma for_each_add_log self (entries : list (string * string)) st :
  for_each (λ e, add_log self e.1 e.2) entries st
  = (Returned tt,
     set_log (λ log,
                log ++ imap (λ i e, {| date := clock self (length log + i);
                                       user := run_user self;
                                       type := e.2; message := e.1 |})
                            entries) st).
Proof.
  revert st. induction entries as [|e entries IH]; intros st.
  { destruct st. unfold set_log. simpl. by rewrite app_nil_r. }
  cbn [for_each]. unfold_M. unfold add_log at 1. rewrite IH.
  unfold set_log. simpl. f_equal. f_equal.
  rewrite <- app_assoc. simpl. rewrite Nat.add_0_r. do 2 f_equal.
  apply imap_ext. intros i x _. simpl. rewrite length_app. simpl.
  do 2 f_equal. lia.
Qed.

(** X26. After [clear_log], logging a sequence of messages and building
    the result table gives a table with the four columns of the log and
    one record for each message, in the order of logging, with the n-th
    timestamp of the clock, the user who runs the macro, the type and the
    text; what the log held before is gone, and DSS is not touched. *)
Theorem log_round_trip (self : MyRunnable) (entries : list (string * string))
    (st : State) :
  (clear_log;; for_each (λ e, add_log self e.1 e.2) entries;;
   create_resulttable) st
  = (Returned
       {| table_columns :=
            [("date", "Date", "STRING"); ("user", "User", "STRING");
             ("type", "Type", "STRING"); ("message", "Message", "STRING")];
          records :=
            imap (λ i e, [clock self i; run_user self; e.2; e.1]) entries |},
     set_log (λ _, imap (λ i e, {| date := clock self i;
                                   user := run_user self;
                                   type := e.2; message := e.1 |})
                        entries) st).
Proof.
  unfold_M. unfold clear_log. rewrite for_each_add_log.
  unfold create_resulttable, set_log. simpl. do 3 f_equal.
  rewrite fmap_imap. by apply imap_ext.
Qed.

(* ================================================================== *)
(** * The user base after the phases *)

(** X27. After the phases have returned without the simulate flag, every
    directory user with a license has an account under its login, with its
    display name and e-mail address, and every account of the kind
    LOCAL_NO_AUTH that is left belongs to a directory user with a license:
    it has all the directory groups of that user, and its profile is the
    license. *)
Theorem phases_settle_accounts (self : MyRunnable) (st st' : State) :
  flag_simulate self = false →
  phases self st = (Returned tt, st') →
  (∀ a, a ∈ aad_users_of self → get_license (license_aad a) ≠ "NONE" →
        ∃ d, users st' !! aad_login a = Some d
             ∧ displayName d = aad_displayName a ∧ email d = aad_email a)
  ∧ (∀ l d, users st' !! l = Some d → owned d →
            ∃ a, a ∈ aad_users_of self
                 ∧ aad_key a = (l, displayName d, email d)
                 ∧ (∀ g, g ∈ groups_aad a → g ∈ groups d)
                 ∧ userProfile d = get_license (license_aad a)
                 ∧ userProfile d ≠ "NONE").
Proof.
  intros Hreal Hphases.
  destruct (phases_preflight self st) as (st0 & [(Hu & _) _] & Heq).
  rewrite Hphases in Heq.
  destruct (preflight self (dss_groups st)) as [e|]; [done|].
  symmetry in Heq.
  assert (reconciled_but (local_groups_of self (dss_groups st))
            (aad_users_of self) [] (users st')) as [I1 I2 _].
  { eapply (for_each_reconciled self _ (aad_users_of self) (users st) Hreal
              (NoDup_aad_users_of self)); [| | |exact Heq].
    - apply NoDup_merge_outer; [|apply NoDup_dss_users_of].
      eapply NoDup_fmap_1. apply NoDup_aad_users_of.
    - done.
    - rewrite Hu. by apply reconciled_but_start. }
  split.
  - intros a Ha Hlicense.
    destruct (I1 a Ha Hlicense) as (d & Hd & Hk);
      [by intros r ?%elem_of_nil|].
    exists d. split; [done|]. unfold key_match, aad_key in Hk.
    injection Hk as Hname Hmail. by rewrite Hname, Hmail.
  - intros l d Hd Hown.
    destruct (I2 l d Hd Hown) as [(a & Ha & Hlicense & Hk & Hsync)
                                 |(r & Hr & _)];
      [|by apply elem_of_nil in Hr].
    apply in_sync_iff in Hsync as [Hgroups Hprofile].
    exists a. split_and!; try done. by rewrite <- Hprofile.
Qed.

Lemma phases_settle_accounts_witness :
  ∃ d, users (phases (macro false None two_row_mapping graph_team)
                     before_sync).2 !! "a_x.com" = Some d
       ∧ displayName d = "Alice" ∧ email d = "a@x.com".
Proof.
  assert (phases (macro false None two_row_mapping graph_team) before_sync
          = (Returned tt,
             (phases (macro false None two_row_mapping graph_team)
                     before_sync).2)) as Hphases
    by (vm_compute; reflexivity).
  assert (alice_aad
            ∈ aad_users_of (macro false None two_row_mapping graph_team))
    as Hin by (apply (bool_decide_unpack _); vm_compute; exact I).
  assert (get_license (license_aad alice_aad) ≠ "NONE") as Hlicense
    by discriminate.
  exact (proj1 (phases_settle_accounts
                  (macro false None two_row_mapping graph_team) before_sync
                  _ eq_refl Hphases) alice_aad Hin Hlicense).
Defined.

(** X28. When a log dataset is configured and cannot be written, the run
    raises the error of the write instead of returning its table; the log
    was completed and the requests of the phases were sent all the same,
    and no dataset has been written. *)
Theorem unwritable_log_raises (self : MyRunnable) (st : State)
    (msg : string) :
  truthy (log_dataset self) = true →
  dataset_write_error self (default EmptyString (log_dataset self))
  = Some msg →
  (run self st).1 = Raised msg
  ∧ users (run self st).2 = users (phases self st).2
  ∧ requests (run self st).2 = requests (phases self st).2
  ∧ written (run self st).2 = written st
  ∧ log_df (run self st).2
    = log_df (phases self st).2
      ++ match (phases self st).1 with
         | Raised e => [log_record self (phases self st).2 e "ERROR"]
         | Returned _ => []
         end.
Proof.
  intros Hlog Hwrite. pose proof (phases_written self st) as Hwritten.
  split_and!; [| | | |apply run_log]; revert Hwritten;
    unfold run; unfold_M; unfold save_log, create_resulttable, add_log;
    destruct (phases self st) as [[[]|e] st1]; simpl;
    rewrite Hlog, Hwrite; simpl; by intros Hw.
Qed.

Lemma unwritable_log_raises_witness :
  (run (macro false (Some "log") two_row_mapping graph_team) before_sync).1
  = Raised "Dataset cannot be written"
  ∧ length (requests (run (macro false (Some "log") two_row_mapping
                             graph_team) before_sync).2) = 4.
Proof.
  split; [|vm_compute; reflexivity].
  exact (proj1 (unwritable_log_raises
                  (macro false (Some "log") two_row_mapping graph_team)
                  before_sync "Dataset cannot be written" eq_refl eq_refl)).
Defined.

(** X29. When no group of the dataset contributes a member, phase 3 has
    no column to sort by: the phases raise before the comparison with DSS,
    and nothing but WARNING records has been added by then. *)
Theorem no_member_ends_phases (self : MyRunnable) (st : State) :
  directory_members self = [] →
  ∃ e st', phases self st = (Raised e, st') ∧ only_warnings st st'.
Proof. apply no_member_no_reconciliation. Qed.

Lemma no_member_ends_phases_witness :
  ∃ e st',
    phases (macro false None one_row_mapping graph_no_member) scenario_C
    = (Raised e, st')
    ∧ only_warnings scenario_C st'.
Proof.
  apply (no_member_ends_phases
           (macro false None one_row_mapping graph_no_member) scenario_C).
  reflexivity.
Defined.
